(** * Grouped aggregation: request validation and strategy dispatch

    A shallow embedding of the libcudf [groupby] object (groupby.cu): its
    constructor, [aggregate], [scan], [get_groups], the private
    [dispatch_aggregation] and [helper], and the two file-local functions
    [empty_results] and [verify_valid_requests].

    The object is mutable (the lazily created sort helper), calls may throw
    [cudf::logic_error], and the properties below speak about which grouping
    strategy a call enters.  Member functions are therefore computations in a small
    monad that threads the object, may throw, and reports the strategies
    entered.  CUDA streams, memory resources and NVTX ranges carry no
    information for the properties below and are left out; the kernels the
    object calls are total functions, so allocation and device failures are
    outside the model. *)

From Stdlib Require Import ZArith QArith Qround List String Bool Lia.
From Stdlib Require Import Permutation.
Import ListNotations.
Local Open Scope Z_scope.

(** ** Columns and tables *)

(** Modelled from the spec: the element type tags of cudf/types.hpp, which is
    not among the sources.  Only [DICTIONARY32] is inspected by the code. *)
Inductive type_id : Type :=
| EMPTY | INT8 | INT16 | INT32 | INT64 | UINT8 | UINT16 | UINT32 | UINT64
| FLOAT32 | FLOAT64 | BOOL8 | DICTIONARY32 | STRING | LIST | STRUCT.

Record data_type : Type := mk_data_type { id : type_id }.

(** Modelled from the spec: [cudf::is_dictionary], whether an element type
    tag is the dictionary encoding. *)
Definition is_dictionary (t : data_type) : bool :=
  match id t with DICTIONARY32 => true | _ => false end.

(** A column: element type, row count ([size_type], a signed 32-bit integer
    that is only ever compared), the elements and the child columns.  A null
    element is [None]; any other element is a rational, its numeric value
    or, for a non-numeric type, a code that stands for it. *)
#[warnings="-register-all"] Inductive column_view : Type :=
| Column (ty : data_type) (sz : Z) (elts : list (option Q))
         (chs : list column_view).

Definition type (c : column_view) : data_type :=
  match c with Column ty _ _ _ => ty end.

Definition size (c : column_view) : Z :=
  match c with Column _ sz _ _ => sz end.

Definition elements (c : column_view) : list (option Q) :=
  match c with Column _ _ elts _ => elts end.

Definition children (c : column_view) : list column_view :=
  match c with Column _ _ _ chs => chs end.

Definition column : Type := column_view.

(** Modelled from the spec: [make_empty_column], the column of a given
    element type with no rows. *)
Definition make_empty_column (t : data_type) : column := Column t 0 [] [].

Definition child (c : column_view) (n : nat) : column_view :=
  nth n (children c) (make_empty_column (mk_data_type EMPTY)).

(** Modelled from the spec: [dictionary_column_view(c).keys()], the
    indirection from a dictionary-encoded column to its keys column.  A
    dictionary column has two children, the indices and then the keys. *)
Definition dictionary_keys (c : column_view) : column_view := child c 1.

(** Modelled from the spec: a table is an ordered sequence of columns of one
    row count; [num_rows] is the row count of its columns and 0 for a table
    without columns. *)
Record table_view : Type := mk_table { columns : list column_view }.

Definition table : Type := table_view.

Definition num_columns (t : table_view) : Z := Z.of_nat (List.length (columns t)).

Definition num_rows (t : table_view) : Z :=
  match columns t with
  | [] => 0
  | c :: _ => size c
  end.

(** Modelled from the spec: [empty_like], the table with the same column
    types and no rows. *)
Fixpoint empty_like_column (c : column_view) : column :=
  match c with
  | Column ty _ _ chs => Column ty 0 [] (map empty_like_column chs)
  end.

Definition empty_like (t : table_view) : table :=
  mk_table (map empty_like_column (columns t)).

(** ** Policies and aggregation descriptors *)

Inductive null_policy : Type := EXCLUDE | INCLUDE.
Inductive sorted : Type := NO | YES.
Inductive order : Type := ASCENDING | DESCENDING.
Inductive null_order : Type := AFTER | BEFORE.

Definition sorted_eqb (a b : sorted) : bool :=
  match a, b with
  | NO, NO | YES, YES => true
  | _, _ => false
  end.

Inductive interpolation : Type := LINEAR | LOWER | HIGHER | MIDPOINT | NEAREST.

(** The kinds of the public header together with the two further kinds the
    dispatcher names ([STD], [VARIANCE]). *)
Inductive Kind : Type :=
| SUM | MIN | MAX | COUNT | MEAN | MEDIAN | QUANTILE | STD | VARIANCE.

(** [struct aggregation] and its derived [quantile_aggregation]; the
    quantile fractions are doubles in the code and rationals here. *)
Inductive aggregation : Type :=
| plain_aggregation (k : Kind)
| quantile_aggregation (quantiles : list Q) (interp : interpolation).

Definition kind (a : aggregation) : Kind :=
  match a with
  | plain_aggregation k => k
  | quantile_aggregation _ _ => QUANTILE
  end.

Record aggregation_request : Type := mk_request {
  values : column_view;
  aggregations : list aggregation
}.

Record aggregation_result : Type := mk_result { results : list column }.

(** The return value of [get_groups]; [groups_values] is the null pointer
    ([None]) when no grouped values are produced. *)
Record groups : Type := mk_groups {
  groups_keys : table;
  groups_offsets : list Z;
  groups_values : option table
}.

(** ** The sort helper and the object *)

(** Modelled from the spec: the Sort Grouping Helper (sort_helper.hpp is not
    among the sources).  It is built from the keys, the null policy and the
    sortedness hint, and holds three cache slots, empty until first use. *)
Record sort_groupby_helper : Type := mk_helper {
  helper_keys : table_view;
  helper_include_null_keys : null_policy;
  helper_keys_pre_sorted : sorted;
  cached_key_sort_order : option (list Z);
  cached_group_offsets : option (list Z);
  cached_sorted_keys : option table
}.

Definition make_sort_groupby_helper (keys : table_view)
  (include_null_keys : null_policy) (keys_pre_sorted : sorted)
  : sort_groupby_helper :=
  mk_helper keys include_null_keys keys_pre_sorted None None None.

Record groupby : Type := mk_groupby {
  _keys : table_view;
  _include_null_keys : null_policy;
  _keys_are_sorted : sorted;
  _column_order : list order;
  _null_precedence : list null_order;
  _helper : option sort_groupby_helper
}.

(** The constructor stores its five arguments; the helper slot starts empty. *)
Definition groupby_new (keys : table_view) (include_null_keys : null_policy)
  (keys_are_sorted : sorted) (column_order : list order)
  (null_precedence : list null_order) : groupby :=
  mk_groupby keys include_null_keys keys_are_sorted column_order
    null_precedence None.

Definition has_helper (g : groupby) : bool :=
  match _helper g with Some _ => true | None => false end.

Definition set_helper (g : groupby) (h : sort_groupby_helper) : groupby :=
  mk_groupby (_keys g) (_include_null_keys g) (_keys_are_sorted g)
    (_column_order g) (_null_precedence g) (Some h).

(** ** Computations on the object *)

Inductive exn : Type := logic_error (what : string).

Definition SizeMismatch : exn :=
  logic_error "Size mismatch between request values and groupby keys."%string.

Definition InvalidAggregation : exn :=
  logic_error "Invalid type/aggregation combination."%string.

Definition DictionaryNotSupported : exn :=
  logic_error "dictionary type not supported for this aggregation"%string.

(** The grouping strategies a call can enter. *)
Inductive strategy : Type := HashGroupby | SortAggregate | SortScan.

(** What a member function call leaves behind: a returned value or a thrown
    exception, the object afterwards, and the strategies entered, in order. *)
Record run (A : Type) : Type := Run {
  outcome : exn + A;
  final : groupby;
  calls : list strategy
}.

Arguments Run {A} _ _ _.
Arguments outcome {A} _.
Arguments final {A} _.
Arguments calls {A} _.

Definition M (A : Type) : Type := groupby -> run A.

Definition ret {A : Type} (a : A) : M A := fun g => Run (inr a) g [].

Definition throw {A : Type} (e : exn) : M A := fun g => Run (inl e) g [].

Definition bind {A B : Type} (m : M A) (f : A -> M B) : M B :=
  fun g =>
    let r := m g in
    match outcome r with
    | inl e => Run (inl e) (final r) (calls r)
    | inr a =>
        let r' := f a (final r) in
        Run (outcome r') (final r') (calls r ++ calls r')
    end.

Notation "x <- m ;; k" := (bind m (fun x => k))
  (at level 61, m at next level, right associativity).
Notation "m ;; k" := (bind m (fun _ => k))
  (at level 61, right associativity).

Definition this : M groupby := fun g => Run (inr g) g [].

Definition enter (s : strategy) : M unit := fun g => Run (inr tt) g [s].

(** [CUDF_EXPECTS(cond, reason)] throws [cudf::logic_error(reason)] when the
    condition is false. *)
Definition CUDF_EXPECTS (cond : bool) (reason : string) : M unit :=
  if cond then ret tt else throw (logic_error reason).

(** Methods of the helper read and fill its cache slots. *)
Definition H (A : Type) : Type := sort_groupby_helper -> A * sort_groupby_helper.

(** ** The collaborators in [cudf::detail]

    The type tables, the hash strategy and the device kernels are not among
    the sources; the dispatcher is verified for every choice of them. *)
Class Detail : Type := {
  (** the supported (element type, kind) combinations *)
  is_valid_aggregation : data_type -> Kind -> bool;
  (** the result element type of a kind over an element type *)
  target_type : data_type -> Kind -> data_type;
  (** the hash-compatible kinds *)
  is_hash_aggregation : Kind -> bool;
  (** whether the compiler is nvcc 10.2 *)
  cuda_10_2 : bool;
  (** [detail::hash::groupby] *)
  hash_groupby : table_view -> list aggregation_request -> null_policy ->
                 table * list aggregation_result;
  (** the stable key sort permutation *)
  compute_key_sort_order : table_view -> null_policy -> sorted -> list Z;
  (** the group boundaries along a sort permutation *)
  compute_group_offsets : table_view -> null_policy -> list Z -> list Z;
  (** the first key row of every group *)
  compute_sorted_keys : table_view -> list Z -> list Z -> table;
  (** [detail::gather] without bounds checking *)
  gather : table_view -> list Z -> table;
  (** one aggregate per group of a value column *)
  group_reduce : column_view -> aggregation -> list Z -> list Z -> column;
  (** the running aggregate per row of a value column *)
  group_scan : column_view -> aggregation -> list Z -> list Z -> column
}.

Section Groupby.

Context {D : Detail}.

(** Modelled from the spec: the three cached outputs of the helper, each
    computed on first use and returned from its slot afterwards. *)
Definition key_sort_order : H (list Z) :=
  fun h =>
    match cached_key_sort_order h with
    | Some o => (o, h)
    | None =>
        let o := compute_key_sort_order (helper_keys h)
                   (helper_include_null_keys h) (helper_keys_pre_sorted h) in
        (o, mk_helper (helper_keys h) (helper_include_null_keys h)
              (helper_keys_pre_sorted h) (Some o) (cached_group_offsets h)
              (cached_sorted_keys h))
    end.

Definition group_offsets : H (list Z) :=
  fun h =>
    match cached_group_offsets h with
    | Some offs => (offs, h)
    | None =>
        let (o, h1) := key_sort_order h in
        let offs := compute_group_offsets (helper_keys h1)
                      (helper_include_null_keys h1) o in
        (offs, mk_helper (helper_keys h1) (helper_include_null_keys h1)
                 (helper_keys_pre_sorted h1) (cached_key_sort_order h1)
                 (Some offs) (cached_sorted_keys h1))
    end.

Definition sorted_keys : H table :=
  fun h =>
    match cached_sorted_keys h with
    | Some t => (t, h)
    | None =>
        let (o, h1) := key_sort_order h in
        let (offs, h2) := group_offsets h1 in
        let t := compute_sorted_keys (helper_keys h2) o offs in
        (t, mk_helper (helper_keys h2) (helper_include_null_keys h2)
              (helper_keys_pre_sorted h2) (cached_key_sort_order h2)
              (cached_group_offsets h2) (Some t))
    end.

(** [groupby::helper]: the existing helper, or a new one stored in the
    object. *)
Definition helper : M sort_groupby_helper :=
  fun g =>
    match _helper g with
    | Some h => Run (inr h) g []
    | None =>
        let h := make_sort_groupby_helper (_keys g) (_include_null_keys g)
                   (_keys_are_sorted g) in
        Run (inr h) (set_helper g h) []
    end.

(** [helper().method(...)]: the method runs on the object's helper, which
    [helper()] hands out by reference. *)
Definition helper_call {A : Type} (method : H A) : M A :=
  h <- helper ;;
  fun g => let (a, h') := method h in Run (inr a) (set_helper g h') [].

(** Modelled from the spec: [detail::hash::can_use_hash_groupby], every
    requested kind is in the hash-compatible subset. *)
Definition can_use_hash_groupby (keys : table_view)
  (requests : list aggregation_request) : bool :=
  forallb (fun r => forallb (fun a => is_hash_aggregation (kind a))
                      (aggregations r)) requests.

(** Modelled from the spec: [groupby::sort_aggregate], the sort strategy of
    [aggregate].  It reduces every value column group by group along the
    helper's sort order and offsets and returns the helper's unique keys. *)
Definition sort_aggregate (requests : list aggregation_request)
  : M (table * list aggregation_result) :=
  enter SortAggregate ;;
  o <- helper_call key_sort_order ;;
  offs <- helper_call group_offsets ;;
  unique_keys <- helper_call sorted_keys ;;
  ret (unique_keys,
       map (fun r => mk_result
                       (map (fun a => group_reduce (values r) a o offs)
                            (aggregations r)))
           requests).

(** Modelled from the spec: [groupby::sort_scan], the sort strategy of
    [scan], one running aggregate per input row. *)
Definition sort_scan (requests : list aggregation_request)
  : M (table * list aggregation_result) :=
  enter SortScan ;;
  o <- helper_call key_sort_order ;;
  offs <- helper_call group_offsets ;;
  grouped_keys <- helper_call sorted_keys ;;
  ret (grouped_keys,
       map (fun r => mk_result
                       (map (fun a => group_scan (values r) a o offs)
                            (aggregations r)))
           requests).

(** [groupby::dispatch_aggregation]. *)
Definition dispatch_aggregation (requests : list aggregation_request)
  : M (table * list aggregation_result) :=
  fun g =>
    if sorted_eqb (_keys_are_sorted g) NO
       && negb (has_helper g)
       && can_use_hash_groupby (_keys g) requests
    then (enter HashGroupby ;;
          ret (hash_groupby (_keys g) requests (_include_null_keys g))) g
    else sort_aggregate requests g.

(** [empty_results]: per request, one empty column per aggregation, typed by
    [target_type] on the type of the value column. *)
Definition empty_results (requests : list aggregation_request)
  : list aggregation_result :=
  map (fun request =>
         mk_result
           (map (fun agg =>
                   make_empty_column
                     (target_type (type (values request)) (kind agg)))
                (aggregations request)))
      requests.

(** The element type the validity table is asked about. *)
Definition values_type (request : aggregation_request) : data_type :=
  if is_dictionary (type (values request))
  then type (dictionary_keys (values request))
  else type (values request).

Definition all_valid (requests : list aggregation_request) : bool :=
  forallb (fun request =>
             forallb (fun agg =>
                        is_valid_aggregation (values_type request) (kind agg))
                     (aggregations request))
          requests.

Definition dictionary_allowed (requests : list aggregation_request) : bool :=
  forallb (fun request =>
             forallb (fun agg =>
                        negb (is_dictionary (type (values request)))
                        || negb (match kind agg with
                                 | SUM | MEAN | STD | VARIANCE => true
                                 | _ => false
                                 end))
                     (aggregations request))
          requests.

(** [verify_valid_requests]; the second check is compiled only for nvcc
    10.2. *)
Definition verify_valid_requests (requests : list aggregation_request)
  : M unit :=
  CUDF_EXPECTS (all_valid requests) "Invalid type/aggregation combination." ;;
  if cuda_10_2
  then CUDF_EXPECTS (dictionary_allowed requests)
         "dictionary type not supported for this aggregation"
  else ret tt.

Definition sizes_match (g : groupby) (requests : list aggregation_request)
  : bool :=
  forallb (fun request => size (values request) =? num_rows (_keys g))
          requests.

(** [groupby::aggregate]. *)
Definition aggregate (requests : list aggregation_request)
  : M (table * list aggregation_result) :=
  (g <- this ;;
   CUDF_EXPECTS (sizes_match g requests)
     "Size mismatch between request values and groupby keys.") ;;
  verify_valid_requests requests ;;
  g <- this ;;
  if num_rows (_keys g) =? 0
  then ret (empty_like (_keys g), empty_results requests)
  else dispatch_aggregation requests.

(** [groupby::scan]. *)
Definition scan (requests : list aggregation_request)
  : M (table * list aggregation_result) :=
  (g <- this ;;
   CUDF_EXPECTS (sizes_match g requests)
     "Size mismatch between request values and groupby keys.") ;;
  verify_valid_requests requests ;;
  g <- this ;;
  if num_rows (_keys g) =? 0
  then ret (empty_like (_keys g), empty_results requests)
  else sort_scan requests.

(** [groupby::get_groups]. *)
Definition get_groups (vals : table_view) : M groups :=
  grouped_keys <- helper_call sorted_keys ;;
  offs <- helper_call group_offsets ;;
  let group_offsets_vector := offs in
  if negb (num_columns vals =? 0)
  then (o <- helper_call key_sort_order ;;
        let grouped_values := gather vals o in
        ret (mk_groups grouped_keys group_offsets_vector (Some grouped_values)))
  else ret (mk_groups grouped_keys group_offsets_vector None).

(** The condition under which [dispatch_aggregation] takes the hash path. *)
Definition hash_applicable (g : groupby)
  (requests : list aggregation_request) : bool :=
  sorted_eqb (_keys_are_sorted g) NO
  && negb (has_helper g)
  && can_use_hash_groupby (_keys g) requests.

(** The hash conditions as the specification lists them: the sortedness
    hint is NO, no helper has been created, and every requested kind is in
    the hash-compatible subset. *)
Definition hash_conditions (g : groupby)
  (requests : list aggregation_request) : Prop :=
  _keys_are_sorted g = NO
  /\ _helper g = None
  /\ (forall r a, In r requests -> In a (aggregations r) ->
                  is_hash_aggregation (kind a) = true).

(** The three checks of [aggregate] and [scan] taken together. *)
Definition passes_validation (g : groupby)
  (requests : list aggregation_request) : bool :=
  sizes_match g requests
  && all_valid requests
  && (negb cuda_10_2 || dictionary_allowed requests).

(** The life of a context: a caller issues public member calls one after
    another on the same object and carries on after an exception. *)
Inductive method_call : Type :=
| call_aggregate (requests : list aggregation_request)
| call_scan (requests : list aggregation_request)
| call_get_groups (vals : table_view).

Definition perform (c : method_call) (g : groupby)
  : groupby * list strategy :=
  match c with
  | call_aggregate requests =>
      let r := aggregate requests g in (final r, calls r)
  | call_scan requests =>
      let r := scan requests g in (final r, calls r)
  | call_get_groups vals =>
      let r := get_groups vals g in (final r, calls r)
  end.

Fixpoint perform_all (cs : list method_call) (g : groupby)
  : groupby * list strategy :=
  match cs with
  | [] => (g, [])
  | c :: rest =>
      let (g1, s1) := perform c g in
      let (g2, s2) := perform_all rest g1 in
      (g2, s1 ++ s2)
  end.

(** The first failing check, in the order the code performs them. *)
Definition first_failure (g : groupby)
  (requests : list aggregation_request) : option exn :=
  if negb (sizes_match g requests) then Some SizeMismatch
  else if negb (all_valid requests) then Some InvalidAggregation
  else if cuda_10_2 && negb (dictionary_allowed requests)
       then Some DictionaryNotSupported
  else None.

(** A helper only ever gains cached outputs, and a context only ever gains
    a helper: the order in which the states of one context follow each
    other. *)
Definition cache_le (h h' : sort_groupby_helper) : Prop :=
  helper_keys h' = helper_keys h
  /\ helper_include_null_keys h' = helper_include_null_keys h
  /\ helper_keys_pre_sorted h' = helper_keys_pre_sorted h
  /\ (forall o, cached_key_sort_order h = Some o ->
                cached_key_sort_order h' = Some o)
  /\ (forall offs, cached_group_offsets h = Some offs ->
                   cached_group_offsets h' = Some offs)
  /\ (forall t, cached_sorted_keys h = Some t ->
                cached_sorted_keys h' = Some t).

Definition extends (g g' : groupby) : Prop :=
  _keys g' = _keys g
  /\ _include_null_keys g' = _include_null_keys g
  /\ _keys_are_sorted g' = _keys_are_sorted g
  /\ _column_order g' = _column_order g
  /\ _null_precedence g' = _null_precedence g
  /\ (forall h, _helper g = Some h ->
                exists h', _helper g' = Some h' /\ cache_le h h').

(** The call returns (does not throw) and its value, final object and
    strategies satisfy [Q]. *)
Definition returns {A : Type} (m : M A) (g : groupby)
  (Q : A -> groupby -> list strategy -> Prop) : Prop :=
  exists a, outcome (m g) = inr a /\ Q a (final (m g)) (calls (m g)).

(** The cached outputs of the object's helper, if any. *)
Definition cached (g : groupby) {A : Type}
  (slot : sort_groupby_helper -> option A) : option A :=
  match _helper g with
  | Some h => slot h
  | None => None
  end.

End Groupby.

(** ** A reference choice of the collaborators

    Modelled from the spec: an executable reading of sections 4.3 to 4.5
    (stable key sort, group boundaries, unique keys, hash grouping in
    first-encountered order, the reductions and the quantile interpolation
    policy), used to run the dispatcher on concrete tables. *)
Module Reference.

Definition all_rows (t : table_view) : list Z :=
  map Z.of_nat (seq 0 (Z.to_nat (num_rows t))).

Definition at_row (c : column_view) (i : Z) : option Q :=
  nth (Z.to_nat i) (elements c) None.

Definition row (t : table_view) (i : Z) : list (option Q) :=
  map (fun c => at_row c i) (columns t).

Definition elt_eqb (a b : option Q) : bool :=
  match a, b with
  | None, None => true
  | Some x, Some y => Qeq_bool x y
  | _, _ => false
  end.

(** Ascending order, nulls before every value. *)
Definition elt_ltb (a b : option Q) : bool :=
  match a, b with
  | None, Some _ => true
  | Some x, Some y => negb (Qle_bool y x)
  | _, _ => false
  end.

Fixpoint row_eqb (r s : list (option Q)) : bool :=
  match r, s with
  | [], [] => true
  | a :: r', b :: s' => elt_eqb a b && row_eqb r' s'
  | _, _ => false
  end.

Fixpoint row_ltb (r s : list (option Q)) : bool :=
  match r, s with
  | a :: r', b :: s' => elt_ltb a b || (elt_eqb a b && row_ltb r' s')
  | _, _ => false
  end.

Definition has_null (r : list (option Q)) : bool :=
  existsb (fun e => match e with None => true | Some _ => false end) r.

(** The rows that take part in grouping under a null policy. *)
Definition kept_rows (t : table_view) (p : null_policy) : list Z :=
  match p with
  | EXCLUDE => filter (fun i => negb (has_null (row t i))) (all_rows t)
  | INCLUDE => all_rows t
  end.

(** Stable insertion: a row goes behind every row that is not greater. *)
Fixpoint insert_row (t : table_view) (i : Z) (l : list Z) : list Z :=
  match l with
  | [] => [i]
  | j :: rest =>
      if row_ltb (row t i) (row t j) then i :: j :: rest
      else j :: insert_row t i rest
  end.

Definition ref_key_sort_order (t : table_view) (p : null_policy)
  (pre_sorted : sorted) : list Z :=
  match pre_sorted with
  | YES => kept_rows t p
  | NO => fold_left (fun acc i => insert_row t i acc) (kept_rows t p) []
  end.

Fixpoint boundaries (t : table_view) (prev : option (list (option Q)))
  (k : Z) (o : list Z) : list Z :=
  match o with
  | [] => [k]
  | i :: rest =>
      let same := match prev with
                  | Some r => row_eqb r (row t i)
                  | None => false
                  end in
      (if same then [] else [k]) ++ boundaries t (Some (row t i)) (k + 1) rest
  end.

Definition ref_group_offsets (t : table_view) (p : null_policy) (o : list Z)
  : list Z :=
  boundaries t None 0 o.

Definition ref_gather (t : table_view) (idx : list Z) : table :=
  mk_table
    (map (fun c => Column (type c) (Z.of_nat (List.length idx))
                     (map (at_row c) idx) (children c))
         (columns t)).

Definition ref_sorted_keys (t : table_view) (o offs : list Z) : table :=
  ref_gather t (map (fun k => nth (Z.to_nat k) o 0) (removelast offs)).

(** The sort-order slices of the groups. *)
Fixpoint slices (o offs : list Z) : list (list Z) :=
  match offs with
  | lo :: (hi :: _) as rest =>
      firstn (Z.to_nat (hi - lo)) (skipn (Z.to_nat lo) o) :: slices o rest
  | _ => []
  end.

Definition valid_values (vs : list (option Q)) : list Q :=
  flat_map (fun v => match v with Some x => [x] | None => [] end) vs.

Fixpoint insert_value (x : Q) (l : list Q) : list Q :=
  match l with
  | [] => [x]
  | y :: rest => if Qle_bool x y then x :: y :: rest
                 else y :: insert_value x rest
  end.

Definition sort_values (l : list Q) : list Q :=
  fold_right insert_value [] l.

Definition qsum (l : list Q) : Q := Qred (fold_left Qplus l 0%Q).

Definition qmin (x y : Q) : Q := if Qle_bool x y then x else y.
Definition qmax (x y : Q) : Q := if Qle_bool x y then y else x.

Definition count_of (l : list Q) : Q := inject_Z (Z.of_nat (List.length l)).

(** The order statistic at fraction [q] of an ascending list, with the
    interpolation rule between the two bracketing ranks. *)
Definition quantile_of (l : list Q) (interp : interpolation) (q : Q)
  : option Q :=
  match l with
  | [] => None
  | x :: _ =>
      let pos := (q * (count_of l - 1))%Q in
      let lo := Qfloor pos in
      let hi := Qceiling pos in
      let vlo := nth (Z.to_nat lo) l x in
      let vhi := nth (Z.to_nat hi) l x in
      let frac := (pos - inject_Z lo)%Q in
      Some (Qred
        match interp with
        | LINEAR => (vlo + (vhi - vlo) * frac)%Q
        | LOWER => vlo
        | HIGHER => vhi
        | MIDPOINT => ((vlo + vhi) / 2)%Q
        | NEAREST => if Qle_bool frac (1 # 2) then vlo else vhi
        end)
  end.

(** The values one aggregation yields for one group: nulls are skipped,
    COUNT counts the valid values, and a quantile aggregation yields one
    value per fraction. *)
Definition reduce (a : aggregation) (vs : list (option Q))
  : list (option Q) :=
  let xs := valid_values vs in
  match a with
  | quantile_aggregation qs interp =>
      map (quantile_of (sort_values xs) interp) qs
  | plain_aggregation k =>
      match k, xs with
      | COUNT, _ => [Some (count_of xs)]
      | _, [] => [None]
      | SUM, _ => [Some (qsum xs)]
      | MIN, x :: rest => [Some (fold_left qmin rest x)]
      | MAX, x :: rest => [Some (fold_left qmax rest x)]
      | MEAN, _ => [Some (Qred (qsum xs / count_of xs))]
      | MEDIAN, _ => [quantile_of (sort_values xs) LINEAR (1 # 2)]
      | _, _ => [None]
      end
  end.

Definition numeric (t : data_type) : bool :=
  match id t with
  | INT8 | INT16 | INT32 | INT64 | UINT8 | UINT16 | UINT32 | UINT64
  | FLOAT32 | FLOAT64 | BOOL8 => true
  | _ => false
  end.

(** A combination table: counting is defined on every element type,
    minimum and maximum on numbers and strings, the other supported kinds
    on numbers only; [STD] and [VARIANCE] are excluded here. *)
Definition ref_is_valid_aggregation (t : data_type) (k : Kind) : bool :=
  match k with
  | COUNT => true
  | MIN | MAX => numeric t || match id t with STRING => true | _ => false end
  | SUM | MEAN | MEDIAN | QUANTILE => numeric t
  | STD | VARIANCE => false
  end.

(** The type-inference rule: a count is an integer, a mean or an order
    statistic is floating point, a sum is widened, a minimum or maximum
    keeps the element type. *)
Definition ref_target_type (t : data_type) (k : Kind) : data_type :=
  match k with
  | COUNT => mk_data_type INT32
  | MEAN | MEDIAN | QUANTILE | STD | VARIANCE => mk_data_type FLOAT64
  | MIN | MAX => t
  | SUM =>
      match id t with
      | INT8 | INT16 | INT32 | INT64 | BOOL8 => mk_data_type INT64
      | UINT8 | UINT16 | UINT32 | UINT64 => mk_data_type UINT64
      | FLOAT32 | FLOAT64 => mk_data_type FLOAT64
      | _ => t
      end
  end.

Definition ref_is_hash_aggregation (k : Kind) : bool :=
  match k with
  | SUM | MIN | MAX | COUNT | MEAN => true
  | _ => false
  end.

Definition result_column (c : column_view) (a : aggregation)
  (elts : list (option Q)) : column :=
  Column (ref_target_type (type c) (kind a)) (Z.of_nat (List.length elts))
    elts [].

Definition ref_group_reduce (c : column_view) (a : aggregation)
  (o offs : list Z) : column :=
  result_column c a
    (flat_map (fun rows => reduce a (map (at_row c) rows)) (slices o offs)).

(** The running aggregate of a row: the reduction over its group's slice up
    to and including the row; rows left out of grouping get null. *)
Fixpoint prefix_upto (i : Z) (rows : list Z) : option (list Z) :=
  match rows with
  | [] => None
  | j :: rest =>
      if j =? i then Some [j]
      else match prefix_upto i rest with
           | Some p => Some (j :: p)
           | None => None
           end
  end.

Definition scan_at (c : column_view) (a : aggregation) (groups : list (list Z))
  (i : Z) : option Q :=
  match flat_map (fun rows => match prefix_upto i rows with
                              | Some p => [p]
                              | None => []
                              end) groups with
  | p :: _ => hd None (reduce a (map (at_row c) p))
  | [] => None
  end.

Definition ref_group_scan (c : column_view) (a : aggregation)
  (o offs : list Z) : column :=
  result_column c a
    (map (scan_at c a (slices o offs))
         (map Z.of_nat (seq 0 (Z.to_nat (size c))))).

(** Hash grouping: the unique keys in first-encountered order, each with
    the rows that carry it. *)
Fixpoint first_seen (t : table_view) (rows : list Z) (seen : list Z)
  : list Z :=
  match rows with
  | [] => []
  | i :: rest =>
      if existsb (fun j => row_eqb (row t j) (row t i)) seen
      then first_seen t rest seen
      else i :: first_seen t rest (i :: seen)
  end.

Definition ref_hash_groupby (t : table_view)
  (requests : list aggregation_request) (p : null_policy)
  : table * list aggregation_result :=
  let rows := kept_rows t p in
  let firsts := first_seen t rows [] in
  let members f := filter (fun i => row_eqb (row t f) (row t i)) rows in
  (ref_gather t firsts,
   map (fun r =>
          mk_result
            (map (fun a =>
                    result_column (values r) a
                      (flat_map (fun f => reduce a (map (at_row (values r))
                                                        (members f)))
                                firsts))
                 (aggregations r)))
       requests).

#[export] Instance detail : Detail := {|
  is_valid_aggregation := ref_is_valid_aggregation;
  target_type := ref_target_type;
  is_hash_aggregation := ref_is_hash_aggregation;
  cuda_10_2 := false;
  hash_groupby := ref_hash_groupby;
  compute_key_sort_order := ref_key_sort_order;
  compute_group_offsets := ref_group_offsets;
  compute_sorted_keys := ref_sorted_keys;
  gather := ref_gather;
  group_reduce := ref_group_reduce;
  group_scan := ref_group_scan
|}.

(** ** Concrete contexts and requests *)

Definition int32_column (l : list Z) : column_view :=
  Column (mk_data_type INT32) (Z.of_nat (List.length l))
    (map (fun z => Some (inject_Z z)) l) [].

(** The worked example of the public header: two key columns, one value
    column. *)
Definition sample_keys : table_view :=
  mk_table [int32_column [1; 2; 1; 3; 1]; int32_column [1; 2; 1; 4; 1]].

Definition sample_values : column_view := int32_column [3; 1; 4; 9; 2].

Definition sample_requests : list aggregation_request :=
  [mk_request sample_values [plain_aggregation SUM; plain_aggregation MIN]].

Definition median_requests : list aggregation_request :=
  [mk_request sample_values
     [plain_aggregation MEDIAN; quantile_aggregation [1 # 2] LOWER]].

Definition sample_context : groupby :=
  groupby_new sample_keys EXCLUDE NO [] [].

(** A context over a key table with one column and no rows. *)
Definition empty_keys : table_view := mk_table [int32_column []].

Definition empty_context : groupby := groupby_new empty_keys EXCLUDE NO [] [].

Definition empty_requests : list aggregation_request :=
  [mk_request (int32_column [])
     [plain_aggregation SUM; plain_aggregation COUNT]].

(** A string column of two rows (too short for the sample keys), asked for
    its mean. *)
Definition short_strings : column_view :=
  Column (mk_data_type STRING) 2 [Some (0 # 1); Some (1 # 1)] [].

Definition short_mean_request : aggregation_request :=
  mk_request short_strings [plain_aggregation MEAN].

(** A dictionary-encoded column of five rows over two string keys, asked
    for its mean; its data are the two children, the indices and the keys. *)
Definition string_dictionary : column_view :=
  Column (mk_data_type DICTIONARY32) 5 []
    [Column (mk_data_type UINT32) 5
       (map (fun z => Some (inject_Z z)) [0; 1; 0; 1; 1]) [];
     Column (mk_data_type STRING) 2 [Some (0 # 1); Some (1 # 1)] []].

Definition dictionary_mean_request : aggregation_request :=
  mk_request string_dictionary [plain_aggregation MEAN].

(** The sample context after a [get_groups] call without values, and the
    empty context after the same call. *)
Definition sample_context_grouped : groupby :=
  final (get_groups (mk_table []) sample_context).

Definition empty_context_grouped : groupby :=
  final (get_groups (mk_table []) empty_context).

End Reference.

(** ** Further notions

    The object's helper, if there is one, was built from the object's own
    keys, null policy and sortedness hint, as [groupby::helper] builds it. *)
Definition helper_consistent (g : groupby) : Prop :=
  forall h, _helper g = Some h ->
    helper_keys h = _keys g
    /\ helper_include_null_keys h = _include_null_keys g
    /\ helper_keys_pre_sorted h = _keys_are_sorted g.

(** A context over keys that are already sorted, declared as such. *)
Definition presorted_context : groupby :=
  groupby_new (mk_table [Reference.int32_column [1; 1; 2; 3]])
    EXCLUDE YES [ASCENDING] [AFTER].

Definition presorted_requests : list aggregation_request :=
  [mk_request (Reference.int32_column [5; 6; 7; 8])
     [plain_aggregation SUM; plain_aggregation COUNT]].

(** The reference collaborators of a build with nvcc 10.2, where
    [verify_valid_requests] contains its second check. *)
Module Nvcc102.

Definition detail : Detail := {|
  is_valid_aggregation := Reference.ref_is_valid_aggregation;
  target_type := Reference.ref_target_type;
  is_hash_aggregation := Reference.ref_is_hash_aggregation;
  cuda_10_2 := true;
  hash_groupby := Reference.ref_hash_groupby;
  compute_key_sort_order := Reference.ref_key_sort_order;
  compute_group_offsets := Reference.ref_group_offsets;
  compute_sorted_keys := Reference.ref_sorted_keys;
  gather := Reference.ref_gather;
  group_reduce := Reference.ref_group_reduce;
  group_scan := Reference.ref_group_scan
|}.

(** A dictionary-encoded column of five rows over two integer keys, asked
    for its sum: a supported combination on the keys' type. *)
Definition int_dictionary : column_view :=
  Column (mk_data_type DICTIONARY32) 5 []
    [Column (mk_data_type UINT32) 5
       (map (fun z => Some (inject_Z z)) [0; 1; 0; 1; 1]) [];
     Reference.int32_column [10; 20]].

Definition dictionary_sum_request : aggregation_request :=
  mk_request int_dictionary [plain_aggregation SUM].

End Nvcc102.

(** * Properties of the dispatcher *)

Section Properties.

Context {D : Detail}.

Implicit Types (g : groupby) (requests : list aggregation_request).

(** ** The shape of a call *)

Lemma run_eta {A : Type} (r : run A) :
  Run (outcome r) (final r) (calls r) = r.
Proof. destruct r; reflexivity. Qed.

Lemma bind_ret_quiet {A B : Type} (m : M A) (f : A -> M B) g a :
  m g = Run (inr a) g [] -> bind m f g = f a g.
Proof.
  intros E. unfold bind. rewrite E. simpl. apply run_eta.
Qed.

Lemma bind_throw_quiet {A B : Type} (m : M A) (f : A -> M B) g e :
  m g = Run (inl e) g [] -> bind m f g = Run (inl e) g [].
Proof.
  intros E. unfold bind. rewrite E. reflexivity.
Qed.

Lemma first_failure_none g requests :
  first_failure g requests = None <-> passes_validation g requests = true.
Proof.
  unfold first_failure, passes_validation.
  destruct (sizes_match g requests), (all_valid requests), cuda_10_2,
    (dictionary_allowed requests); simpl; split; congruence.
Qed.

Lemma verify_valid_requests_run requests g :
  verify_valid_requests requests g =
  if negb (all_valid requests) then Run (inl InvalidAggregation) g []
  else if cuda_10_2 && negb (dictionary_allowed requests)
       then Run (inl DictionaryNotSupported) g []
  else Run (inr tt) g [].
Proof.
  unfold verify_valid_requests, CUDF_EXPECTS, bind, ret, throw.
  destruct (all_valid requests), cuda_10_2, (dictionary_allowed requests);
    reflexivity.
Qed.

Lemma size_check_run requests g :
  (g0 <- this ;;
   CUDF_EXPECTS (sizes_match g0 requests)
     "Size mismatch between request values and groupby keys.") g =
  if sizes_match g requests then Run (inr tt) g []
  else Run (inl SizeMismatch) g [].
Proof.
  unfold bind, this, CUDF_EXPECTS. simpl.
  destruct (sizes_match g requests); reflexivity.
Qed.

Lemma aggregate_run requests g :
  aggregate requests g =
  match first_failure g requests with
  | Some e => Run (inl e) g []
  | None =>
      if num_rows (_keys g) =? 0
      then Run (inr (empty_like (_keys g), empty_results requests)) g []
      else dispatch_aggregation requests g
  end.
Proof.
  unfold aggregate, first_failure.
  pose proof (size_check_run requests g) as S.
  destruct (sizes_match g requests); simpl in *.
  2:{ apply bind_throw_quiet. exact S. }
  rewrite (bind_ret_quiet _ _ g tt) by exact S.
  pose proof (verify_valid_requests_run requests g) as V.
  destruct (all_valid requests); simpl in *.
  2:{ apply bind_throw_quiet. exact V. }
  destruct (cuda_10_2 && negb (dictionary_allowed requests)); simpl in *.
  { apply bind_throw_quiet. exact V. }
  rewrite (bind_ret_quiet _ _ g tt) by exact V.
  rewrite (bind_ret_quiet _ _ g g) by reflexivity.
  destruct (num_rows (_keys g) =? 0); reflexivity.
Qed.

Lemma scan_run requests g :
  scan requests g =
  match first_failure g requests with
  | Some e => Run (inl e) g []
  | None =>
      if num_rows (_keys g) =? 0
      then Run (inr (empty_like (_keys g), empty_results requests)) g []
      else sort_scan requests g
  end.
Proof.
  unfold scan, first_failure.
  pose proof (size_check_run requests g) as S.
  destruct (sizes_match g requests); simpl in *.
  2:{ apply bind_throw_quiet. exact S. }
  rewrite (bind_ret_quiet _ _ g tt) by exact S.
  pose proof (verify_valid_requests_run requests g) as V.
  destruct (all_valid requests); simpl in *.
  2:{ apply bind_throw_quiet. exact V. }
  destruct (cuda_10_2 && negb (dictionary_allowed requests)); simpl in *.
  { apply bind_throw_quiet. exact V. }
  rewrite (bind_ret_quiet _ _ g tt) by exact V.
  rewrite (bind_ret_quiet _ _ g g) by reflexivity.
  destruct (num_rows (_keys g) =? 0); reflexivity.
Qed.


(** ** The states of one context *)

Lemma cache_le_refl h : cache_le h h.
Proof. unfold cache_le; intuition. Qed.

Lemma cache_le_trans h1 h2 h3 :
  cache_le h1 h2 -> cache_le h2 h3 -> cache_le h1 h3.
Proof.
  unfold cache_le.
  intros (K1 & P1 & S1 & O1 & F1 & T1) (K2 & P2 & S2 & O2 & F2 & T2).
  repeat split; try congruence; auto.
Qed.

Lemma extends_refl g : extends g g.
Proof.
  unfold extends. repeat split; trivial.
  intros h E. exists h. split; [exact E | apply cache_le_refl].
Qed.

Lemma extends_trans g1 g2 g3 :
  extends g1 g2 -> extends g2 g3 -> extends g1 g3.
Proof.
  unfold extends.
  intros (K1 & P1 & S1 & C1 & N1 & H1) (K2 & P2 & S2 & C2 & N2 & H2).
  repeat split; try congruence.
  intros h E. destruct (H1 h E) as (h2 & E2 & L2).
  destruct (H2 h2 E2) as (h3 & E3 & L3).
  exists h3. split; [exact E3 | eapply cache_le_trans; eassumption].
Qed.

Lemma extends_has_helper g g' :
  extends g g' -> has_helper g = true -> has_helper g' = true.
Proof.
  intros (_ & _ & _ & _ & _ & Hh). unfold has_helper.
  destruct (_helper g) as [h|]; [|discriminate].
  destruct (Hh h eq_refl) as (h' & -> & _). reflexivity.
Qed.

Lemma extends_cached {A : Type} (slot : sort_groupby_helper -> option A)
  g g' v :
  (forall h h', cache_le h h' -> slot h = Some v -> slot h' = Some v) ->
  extends g g' -> cached g slot = Some v -> cached g' slot = Some v.
Proof.
  intros Mono (_ & _ & _ & _ & _ & Hh). unfold cached.
  destruct (_helper g) as [h|]; [|discriminate].
  destruct (Hh h eq_refl) as (h' & -> & L). eauto.
Qed.

Lemma cached_offsets_mono h h' v :
  cache_le h h' ->
  cached_group_offsets h = Some v -> cached_group_offsets h' = Some v.
Proof. intros (_ & _ & _ & _ & F & _). apply F. Qed.

Lemma cached_keys_mono h h' v :
  cache_le h h' ->
  cached_sorted_keys h = Some v -> cached_sorted_keys h' = Some v.
Proof. intros (_ & _ & _ & _ & _ & T). apply T. Qed.

Lemma cached_order_mono h h' v :
  cache_le h h' ->
  cached_key_sort_order h = Some v -> cached_key_sort_order h' = Some v.
Proof. intros (_ & _ & _ & O & _ & _). apply O. Qed.

(** ** The helper's methods fill their slot and keep the others *)

Lemma key_sort_order_fills h :
  cache_le h (snd (key_sort_order h))
  /\ cached_key_sort_order (snd (key_sort_order h))
     = Some (fst (key_sort_order h)).
Proof.
  unfold key_sort_order, cache_le.
  destruct (cached_key_sort_order h) eqn:E; simpl; intuition congruence.
Qed.

Lemma group_offsets_fills h :
  cache_le h (snd (group_offsets h))
  /\ cached_group_offsets (snd (group_offsets h))
     = Some (fst (group_offsets h)).
Proof.
  unfold group_offsets, key_sort_order, cache_le.
  destruct (cached_group_offsets h) eqn:E1,
           (cached_key_sort_order h) eqn:E2; simpl;
    intuition congruence.
Qed.

Lemma sorted_keys_fills h :
  cache_le h (snd (sorted_keys h))
  /\ cached_sorted_keys (snd (sorted_keys h)) = Some (fst (sorted_keys h)).
Proof.
  unfold sorted_keys, group_offsets, key_sort_order, cache_le.
  destruct (cached_sorted_keys h) eqn:E1,
           (cached_key_sort_order h) eqn:E2,
           (cached_group_offsets h) eqn:E3; simpl;
    rewrite ?E2, ?E3; simpl; intuition congruence.
Qed.

(** ** Rules for sequencing *)

Lemma returns_ret {A : Type} (a : A) g (Q : A -> groupby -> list strategy -> Prop) :
  Q a g [] -> returns (ret a) g Q.
Proof. intros HQ. exists a. split; [reflexivity | exact HQ]. Qed.

Lemma returns_enter s g (Q : unit -> groupby -> list strategy -> Prop) :
  Q tt g [s] -> returns (enter s) g Q.
Proof. intros HQ. exists tt. split; [reflexivity | exact HQ]. Qed.

Lemma returns_bind {A B : Type} (m : M A) (f : A -> M B) g
  (Q : B -> groupby -> list strategy -> Prop) :
  returns m g (fun a g1 s1 =>
    returns (f a) g1 (fun b g2 s2 => Q b g2 (s1 ++ s2))) ->
  returns (bind m f) g Q.
Proof.
  intros (a & Ea & b & Eb & HQ). exists b. unfold bind.
  rewrite Ea. simpl. split; assumption.
Qed.

Lemma returns_weaken {A : Type} (m : M A) g
  (P Q : A -> groupby -> list strategy -> Prop) :
  returns m g P -> (forall a g' s, P a g' s -> Q a g' s) -> returns m g Q.
Proof. intros (a & Ea & HP) W. exists a. split; auto. Qed.

(** A method call on the helper returns quietly, leaves a helper behind and
    only adds to what the context already holds. *)
Lemma returns_helper_call {A : Type} (method : H A)
  (slot : sort_groupby_helper -> option A) g :
  (forall h, cache_le h (snd (method h))
             /\ slot (snd (method h)) = Some (fst (method h))) ->
  returns (helper_call method) g (fun a g' s =>
    s = [] /\ extends g g' /\ has_helper g' = true
    /\ cached g' slot = Some a).
Proof.
  intros Fill. unfold helper_call, helper, bind, returns, cached, has_helper.
  destruct (_helper g) as [h|] eqn:E; simpl.
  - destruct (Fill h) as (L & S). destruct (method h) as [a h']; simpl in *.
    exists a. repeat split; trivial.
    intros h0 E0. exists h'. split; [reflexivity|].
    rewrite E in E0. injection E0 as <-. exact L.
  - set (h := make_sort_groupby_helper _ _ _).
    destruct (Fill h) as (L & S). destruct (method h) as [a h']; simpl in *.
    exists a. repeat split; trivial. congruence.
Qed.


Ltac helper_step fills :=
  apply returns_bind;
  eapply returns_weaken;
  [ apply returns_helper_call; exact fills
  | let a := fresh "a" in
    let g' := fresh "g" in
    let s := fresh "s" in
    let X := fresh "X" in
    let Hh := fresh "Hh" in
    let C := fresh "C" in
    intros a g' s (-> & X & Hh & C) ].

(** ** The strategies *)

Lemma dispatch_aggregation_run requests g :
  dispatch_aggregation requests g =
  if hash_applicable g requests
  then Run (inr (hash_groupby (_keys g) requests (_include_null_keys g)))
         g [HashGroupby]
  else sort_aggregate requests g.
Proof.
  unfold dispatch_aggregation, hash_applicable.
  destruct (sorted_eqb (_keys_are_sorted g) NO && negb (has_helper g)
            && can_use_hash_groupby (_keys g) requests); reflexivity.
Qed.

Lemma sort_aggregate_returns requests g :
  returns (sort_aggregate requests) g (fun _ g' s =>
    s = [SortAggregate] /\ extends g g' /\ has_helper g' = true).
Proof.
  unfold sort_aggregate.
  apply returns_bind, returns_enter.
  helper_step key_sort_order_fills.
  helper_step group_offsets_fills.
  helper_step sorted_keys_fills.
  apply returns_ret.
  split; [reflexivity|]. split; [eauto using extends_trans | assumption].
Qed.

Lemma sort_scan_returns requests g :
  returns (sort_scan requests) g (fun _ g' s =>
    s = [SortScan] /\ extends g g' /\ has_helper g' = true).
Proof.
  unfold sort_scan.
  apply returns_bind, returns_enter.
  helper_step key_sort_order_fills.
  helper_step group_offsets_fills.
  helper_step sorted_keys_fills.
  apply returns_ret.
  split; [reflexivity|]. split; [eauto using extends_trans | assumption].
Qed.

Lemma get_groups_returns vals g :
  returns (get_groups vals) g (fun k g' s =>
    s = [] /\ extends g g' /\ has_helper g' = true
    /\ cached g' cached_sorted_keys = Some (groups_keys k)
    /\ cached g' cached_group_offsets = Some (groups_offsets k)
    /\ (if num_columns vals =? 0 then groups_values k = None
        else exists o, cached g' cached_key_sort_order = Some o
                       /\ groups_values k = Some (gather vals o))).
Proof.
  unfold get_groups.
  helper_step sorted_keys_fills.
  helper_step group_offsets_fills.
  assert (K : cached g1 cached_sorted_keys = Some a).
  { eapply extends_cached; eauto using cached_keys_mono. }
  destruct (num_columns vals =? 0); simpl.
  - apply returns_ret. simpl.
    split; [reflexivity|]. split; [eauto using extends_trans|].
    repeat split; assumption.
  - helper_step key_sort_order_fills.
    apply returns_ret. simpl.
    split; [reflexivity|]. split; [eauto using extends_trans|].
    split; [assumption|].
    split; [eapply extends_cached; eauto using cached_keys_mono|].
    split; [eapply extends_cached; eauto using cached_offsets_mono|].
    exists a1. split; [assumption | reflexivity].
Qed.

Lemma aggregate_extends requests g : extends g (final (aggregate requests g)).
Proof.
  rewrite aggregate_run, dispatch_aggregation_run.
  destruct (first_failure g requests); simpl; [apply extends_refl|].
  destruct (num_rows (_keys g) =? 0); simpl; [apply extends_refl|].
  destruct (hash_applicable g requests); simpl; [apply extends_refl|].
  destruct (sort_aggregate_returns requests g) as (a & _ & _ & X & _).
  exact X.
Qed.

Lemma scan_extends requests g : extends g (final (scan requests g)).
Proof.
  rewrite scan_run.
  destruct (first_failure g requests); simpl; [apply extends_refl|].
  destruct (num_rows (_keys g) =? 0); simpl; [apply extends_refl|].
  destruct (sort_scan_returns requests g) as (a & _ & _ & X & _).
  exact X.
Qed.

Lemma get_groups_extends vals g : extends g (final (get_groups vals g)).
Proof.
  destruct (get_groups_returns vals g) as (k & _ & _ & X & _). exact X.
Qed.

Lemma perform_extends c g : extends g (fst (perform c g)).
Proof.
  destruct c;
    [apply aggregate_extends | apply scan_extends | apply get_groups_extends].
Qed.

Lemma perform_all_extends cs : forall g, extends g (fst (perform_all cs g)).
Proof.
  induction cs as [|c cs IH]; intros g; simpl.
  - apply extends_refl.
  - pose proof (perform_extends c g) as X.
    destruct (perform c g) as [g1 s1]; simpl in X.
    specialize (IH g1). destruct (perform_all cs g1) as [g2 s2]; simpl in *.
    eapply extends_trans; eassumption.
Qed.

Lemma hash_applicable_helper g requests :
  has_helper g = true -> hash_applicable g requests = false.
Proof.
  intros E. unfold hash_applicable. rewrite E.
  destruct (sorted_eqb (_keys_are_sorted g) NO); reflexivity.
Qed.

(** The strategies an [aggregate] or a [scan] call enters. *)
Lemma aggregate_calls requests g :
  calls (aggregate requests g) =
  if passes_validation g requests && negb (num_rows (_keys g) =? 0)
  then [if hash_applicable g requests then HashGroupby else SortAggregate]
  else [].
Proof.
  rewrite aggregate_run, dispatch_aggregation_run.
  pose proof (first_failure_none g requests) as FN.
  destruct (first_failure g requests); simpl.
  { destruct (passes_validation g requests); [|reflexivity].
    destruct FN as (_ & FN). discriminate (FN eq_refl). }
  destruct FN as (FN & _). rewrite (FN eq_refl). simpl.
  destruct (num_rows (_keys g) =? 0); simpl; [reflexivity|].
  destruct (hash_applicable g requests); simpl; [reflexivity|].
  destruct (sort_aggregate_returns requests g) as (a & _ & S & _).
  exact S.
Qed.

Lemma scan_calls requests g :
  calls (scan requests g) =
  if passes_validation g requests && negb (num_rows (_keys g) =? 0)
  then [SortScan]
  else [].
Proof.
  rewrite scan_run.
  pose proof (first_failure_none g requests) as FN.
  destruct (first_failure g requests); simpl.
  { destruct (passes_validation g requests); [|reflexivity].
    destruct FN as (_ & FN). discriminate (FN eq_refl). }
  destruct FN as (FN & _). rewrite (FN eq_refl). simpl.
  destruct (num_rows (_keys g) =? 0); simpl; [reflexivity|].
  destruct (sort_scan_returns requests g) as (a & _ & S & _).
  exact S.
Qed.

Lemma perform_no_hash c g :
  has_helper g = true -> ~ In HashGroupby (snd (perform c g)).
Proof.
  intros E. destruct c; cbn [perform snd].
  - rewrite aggregate_calls, (hash_applicable_helper _ _ E).
    destruct (_ && _); simpl; intuition discriminate.
  - rewrite scan_calls. destruct (_ && _); simpl; intuition discriminate.
  - destruct (get_groups_returns vals g) as (k & _ & -> & _). simpl. tauto.
Qed.

Lemma perform_all_no_hash cs : forall g,
  has_helper g = true -> ~ In HashGroupby (snd (perform_all cs g)).
Proof.
  induction cs as [|c cs IH]; intros g E; simpl; [tauto|].
  pose proof (perform_extends c g) as X.
  pose proof (perform_no_hash c g E) as N.
  destruct (perform c g) as [g1 s1]; simpl in *.
  specialize (IH g1 (extends_has_helper _ _ X E)).
  destruct (perform_all cs g1) as [g2 s2]; simpl in *.
  rewrite in_app_iff. tauto.
Qed.


(** ** The checks, request by request *)

Lemma sizes_match_false g requests r :
  In r requests -> size (values r) <> num_rows (_keys g) ->
  sizes_match g requests = false.
Proof.
  intros I N. destruct (sizes_match g requests) eqn:E; [|reflexivity].
  unfold sizes_match in E. rewrite forallb_forall in E.
  specialize (E r I). apply Z.eqb_eq in E. contradiction.
Qed.

Lemma all_valid_false requests r a :
  In r requests -> In a (aggregations r) ->
  is_valid_aggregation (values_type r) (kind a) = false ->
  all_valid requests = false.
Proof.
  intros Ir Ia V. destruct (all_valid requests) eqn:E; [|reflexivity].
  unfold all_valid in E. rewrite forallb_forall in E.
  specialize (E r Ir). rewrite forallb_forall in E.
  specialize (E a Ia). congruence.
Qed.

Lemma can_use_hash_groupby_true keys requests :
  can_use_hash_groupby keys requests = true <->
  forall r a, In r requests -> In a (aggregations r) ->
              is_hash_aggregation (kind a) = true.
Proof.
  unfold can_use_hash_groupby. rewrite forallb_forall. split.
  - intros E r a Ir. specialize (E r Ir). rewrite forallb_forall in E.
    apply E.
  - intros E r Ir. rewrite forallb_forall. intros a. apply E, Ir.
Qed.

Lemma hash_applicable_true g requests :
  hash_applicable g requests = true <-> hash_conditions g requests.
Proof.
  unfold hash_applicable, hash_conditions, has_helper.
  rewrite !andb_true_iff, can_use_hash_groupby_true.
  destruct (_keys_are_sorted g), (_helper g); simpl;
    intuition discriminate.
Qed.

Lemma first_failure_sizes g requests :
  sizes_match g requests = false ->
  first_failure g requests = Some SizeMismatch.
Proof. intros E. unfold first_failure. rewrite E. reflexivity. Qed.

Lemma first_failure_some g requests :
  passes_validation g requests = false ->
  exists e, first_failure g requests = Some e.
Proof.
  intros E. destruct (first_failure g requests) as [e|] eqn:F; eauto.
  apply first_failure_none in F. congruence.
Qed.

Lemma num_rows_empty_like t : num_rows (empty_like t) = 0.
Proof.
  unfold num_rows, empty_like. simpl.
  destruct (columns t) as [|[ty sz elts chs] cs]; reflexivity.
Qed.

Lemma types_empty_like t :
  map type (columns (empty_like t)) = map type (columns t).
Proof.
  unfold empty_like. simpl. rewrite map_map.
  apply map_ext. intros [ty sz elts chs]. reflexivity.
Qed.

Lemma empty_results_shape requests :
  Forall2
    (fun r res =>
       Forall2 (fun a c =>
                  size c = 0 /\ elements c = []
                  /\ type c = target_type (type (values r)) (kind a))
               (aggregations r) (results res))
    requests (empty_results requests).
Proof.
  unfold empty_results.
  induction requests as [|r rest IH]; simpl; constructor; [|exact IH].
  simpl. induction (aggregations r) as [|a l IHl]; simpl; constructor; auto.
Qed.

(** ** How a helper comes to exist *)

Lemma get_groups_creates_helper vals g :
  has_helper (final (get_groups vals g)) = true.
Proof.
  destruct (get_groups_returns vals g) as (k & _ & _ & _ & E & _). exact E.
Qed.

Lemma scan_creates_helper requests g :
  passes_validation g requests = true -> num_rows (_keys g) <> 0 ->
  has_helper (final (scan requests g)) = true.
Proof.
  intros V N. rewrite scan_run.
  apply first_failure_none in V. rewrite V.
  apply Z.eqb_neq in N. rewrite N.
  destruct (sort_scan_returns requests g) as (a & _ & _ & _ & E). exact E.
Qed.

Lemma aggregate_creates_helper requests g :
  passes_validation g requests = true -> num_rows (_keys g) <> 0 ->
  hash_applicable g requests = false ->
  has_helper (final (aggregate requests g)) = true.
Proof.
  intros V N A. rewrite aggregate_run, dispatch_aggregation_run, A.
  apply first_failure_none in V. rewrite V.
  apply Z.eqb_neq in N. rewrite N.
  destruct (sort_aggregate_returns requests g) as (a & _ & _ & _ & E).
  exact E.
Qed.

(** * The specification, claim by claim *)

(** C1, as amended.  For every [aggregate] call that passes validation on a
    context whose key table has at least one row, the hash strategy is used
    if and only if the sortedness hint is NO, no sort helper has been
    created for the context, and every requested aggregation is in the
    hash-compatible subset; in every other such case the sort strategy is
    used. *)
Theorem aggregate_hash_iff g requests :
  passes_validation g requests = true ->
  num_rows (_keys g) <> 0 ->
  (In HashGroupby (calls (aggregate requests g)) <->
   hash_conditions g requests)
  /\ (hash_conditions g requests ->
      calls (aggregate requests g) = [HashGroupby])
  /\ (~ hash_conditions g requests ->
      calls (aggregate requests g) = [SortAggregate]).
Proof.
  intros V N. rewrite aggregate_calls, V.
  apply Z.eqb_neq in N. rewrite N. simpl.
  pose proof (hash_applicable_true g requests) as A.
  destruct (hash_applicable g requests); simpl.
  - assert (hash_conditions g requests) by (apply A; reflexivity).
    intuition.
  - assert (~ hash_conditions g requests).
    { intros C. apply A in C. discriminate. }
    intuition; discriminate.
Qed.

(** C2, as amended.  A sort helper is created by every [get_groups] call,
    and by every [scan] and every not hash-compatible [aggregate] that
    passes validation on a key table with at least one row.  The helper
    state is a one-way transition: once a sort helper exists, it exists
    after every further sequence of [aggregate], [scan] and [get_groups]
    calls, none of those calls uses the hash strategy, and every later
    [aggregate] or [scan] call that passes validation on a key table with at
    least one row uses the sort strategy, whatever its requests. *)
Theorem sort_strategy_lock g cs :
  (forall vals, has_helper (final (get_groups vals g)) = true)
  /\ (forall requests,
        passes_validation g requests = true ->
        num_rows (_keys g) <> 0 ->
        has_helper (final (scan requests g)) = true
        /\ (can_use_hash_groupby (_keys g) requests = false ->
            has_helper (final (aggregate requests g)) = true))
  /\ (has_helper g = true ->
      has_helper (fst (perform_all cs g)) = true
      /\ ~ In HashGroupby (snd (perform_all cs g))
      /\ forall requests,
           passes_validation (fst (perform_all cs g)) requests = true ->
           num_rows (_keys (fst (perform_all cs g))) <> 0 ->
           calls (aggregate requests (fst (perform_all cs g)))
             = [SortAggregate]
           /\ calls (scan requests (fst (perform_all cs g))) = [SortScan]).
Proof.
  split; [intros vals; apply get_groups_creates_helper|].
  split.
  { intros requests V N. split; [apply scan_creates_helper; assumption|].
    intros C. apply aggregate_creates_helper; try assumption.
    unfold hash_applicable. rewrite C. apply andb_false_r. }
  intros E.
  assert (E' : has_helper (fst (perform_all cs g)) = true).
  { eapply extends_has_helper; [apply perform_all_extends | exact E]. }
  split; [exact E'|]. split; [apply perform_all_no_hash, E|].
  intros requests V N.
  rewrite aggregate_calls, scan_calls, V, (hash_applicable_helper _ _ E').
  apply Z.eqb_neq in N. rewrite N. split; reflexivity.
Qed.

(** C3.  Whenever some request's value column length differs from the key
    table's row count, [aggregate] and [scan] both throw the size mismatch
    error, with the object untouched and no strategy entered. *)
Theorem size_mismatch_rejected g requests r :
  In r requests ->
  size (values r) <> num_rows (_keys g) ->
  aggregate requests g = Run (inl SizeMismatch) g []
  /\ scan requests g = Run (inl SizeMismatch) g [].
Proof.
  intros I N. rewrite aggregate_run, scan_run.
  rewrite (first_failure_sizes _ _ (sizes_match_false _ _ _ I N)).
  split; reflexivity.
Qed.

(** C4, as amended.  If some (value element type, kind) pair of the
    requests is unsupported, where the element type of a dictionary-encoded
    value column is the type of its keys column, then [aggregate] and [scan]
    both fail: with the invalid aggregation error when every value column
    has the key table's row count, and with the size mismatch error
    otherwise. *)
Theorem invalid_combination_rejected g requests r a :
  In r requests ->
  In a (aggregations r) ->
  is_valid_aggregation
    (if is_dictionary (type (values r))
     then type (dictionary_keys (values r))
     else type (values r))
    (kind a) = false ->
  aggregate requests g =
    Run (inl (if sizes_match g requests then InvalidAggregation
              else SizeMismatch)) g []
  /\ scan requests g =
    Run (inl (if sizes_match g requests then InvalidAggregation
              else SizeMismatch)) g [].
Proof.
  intros Ir Ia V. rewrite aggregate_run, scan_run.
  unfold first_failure.
  rewrite (all_valid_false requests r a Ir Ia V).
  destruct (sizes_match g requests); split; reflexivity.
Qed.

(** C5.  On a key table with zero rows and valid requests, [aggregate]
    returns the empty table of the key columns' types together with, for
    each request and each of its aggregations in order, exactly one empty
    column whose type is [target_type] of the value column's type and the
    aggregation kind; no strategy is entered. *)
Theorem aggregate_empty_input g requests :
  num_rows (_keys g) = 0 ->
  passes_validation g requests = true ->
  aggregate requests g =
    Run (inr (empty_like (_keys g), empty_results requests)) g []
  /\ num_rows (empty_like (_keys g)) = 0
  /\ map type (columns (empty_like (_keys g))) = map type (columns (_keys g))
  /\ Forall2
       (fun r res =>
          Forall2 (fun a c =>
                     size c = 0 /\ elements c = []
                     /\ type c = target_type (type (values r)) (kind a))
                  (aggregations r) (results res))
       requests (empty_results requests).
Proof.
  intros N V. rewrite aggregate_run.
  apply first_failure_none in V. rewrite V, N. simpl.
  split; [reflexivity|].
  split; [apply num_rows_empty_like|].
  split; [apply types_empty_like|].
  apply empty_results_shape.
Qed.

(** C6.  [scan] performs the same validation and the same empty-input
    handling as [aggregate]: when validation fails or the key table has no
    rows, the two calls behave identically.  A [scan] that passes validation
    on a non-empty key table is [sort_scan]; no [scan] ever enters the hash
    strategy. *)
Theorem scan_uses_sort g requests :
  (passes_validation g requests = false \/ num_rows (_keys g) = 0 ->
   scan requests g = aggregate requests g)
  /\ (passes_validation g requests = true -> num_rows (_keys g) <> 0 ->
      scan requests g = sort_scan requests g
      /\ calls (scan requests g) = [SortScan])
  /\ ~ In HashGroupby (calls (scan requests g)).
Proof.
  split; [|split].
  - intros C. rewrite scan_run, aggregate_run.
    destruct (first_failure g requests) as [e|] eqn:F; [reflexivity|].
    destruct C as [V | N].
    + apply first_failure_none in F. congruence.
    + rewrite N. reflexivity.
  - intros V N. rewrite scan_calls, V, scan_run.
    apply first_failure_none in V. rewrite V.
    apply Z.eqb_neq in N. rewrite N. split; reflexivity.
  - rewrite scan_calls. destruct (_ && _); simpl; intuition discriminate.
Qed.

(** C7.  Validation comes before any strategy: an [aggregate] or [scan]
    call that fails the size check or the type/aggregation check throws,
    returns nothing, leaves the object exactly as it was and enters no
    strategy. *)
Theorem validation_failure_no_effect g requests :
  passes_validation g requests = false ->
  exists e,
    aggregate requests g = Run (inl e) g []
    /\ scan requests g = Run (inl e) g [].
Proof.
  intros V. destruct (first_failure_some g requests V) as (e & F).
  exists e. rewrite aggregate_run, scan_run, F. split; reflexivity.
Qed.

Lemma get_groups_first_use vals g :
  _helper g = None ->
  exists k,
    outcome (get_groups vals g) = inr k
    /\ groups_offsets k
       = compute_group_offsets (_keys g) (_include_null_keys g)
           (compute_key_sort_order (_keys g) (_include_null_keys g)
              (_keys_are_sorted g))
    /\ groups_keys k
       = compute_sorted_keys (_keys g)
           (compute_key_sort_order (_keys g) (_include_null_keys g)
              (_keys_are_sorted g))
           (compute_group_offsets (_keys g) (_include_null_keys g)
              (compute_key_sort_order (_keys g) (_include_null_keys g)
                 (_keys_are_sorted g))).
Proof.
  intros E. unfold get_groups, helper_call, helper, bind. rewrite E. simpl.
  destruct (num_columns vals =? 0); simpl;
    eexists; repeat split; reflexivity.
Qed.

(** C8.  Two [get_groups] calls on one context return the same sorted keys
    and the same group offsets, whatever values tables they are given and
    whatever [aggregate], [scan] and [get_groups] calls come between them,
    because the helper's outputs are computed once and cached: on a context
    without a helper the first call computes them from the keys, the null
    policy and the sortedness hint; what a call returns is afterwards held
    in the helper's cache slots; a filled slot is returned as it is, not
    computed again; and no later call empties or changes a slot. *)
Theorem get_groups_idempotent g vals1 cs vals2 :
  exists k1 k2,
    outcome (get_groups vals1 g) = inr k1
    /\ outcome (get_groups vals2
                  (fst (perform_all cs (final (get_groups vals1 g)))))
       = inr k2
    /\ groups_keys k2 = groups_keys k1
    /\ groups_offsets k2 = groups_offsets k1
    /\ (_helper g = None ->
        groups_offsets k1
        = compute_group_offsets (_keys g) (_include_null_keys g)
            (compute_key_sort_order (_keys g) (_include_null_keys g)
               (_keys_are_sorted g))
        /\ groups_keys k1
           = compute_sorted_keys (_keys g)
               (compute_key_sort_order (_keys g) (_include_null_keys g)
                  (_keys_are_sorted g))
               (compute_group_offsets (_keys g) (_include_null_keys g)
                  (compute_key_sort_order (_keys g) (_include_null_keys g)
                     (_keys_are_sorted g))))
    /\ (forall t, cached g cached_sorted_keys = Some t -> groups_keys k1 = t)
    /\ (forall offs, cached g cached_group_offsets = Some offs ->
                     groups_offsets k1 = offs)
    /\ cached (final (get_groups vals1 g)) cached_sorted_keys
       = Some (groups_keys k1)
    /\ cached (final (get_groups vals1 g)) cached_group_offsets
       = Some (groups_offsets k1)
    /\ cached (fst (perform_all cs (final (get_groups vals1 g))))
         cached_sorted_keys
       = Some (groups_keys k1)
    /\ cached (fst (perform_all cs (final (get_groups vals1 g))))
         cached_group_offsets
       = Some (groups_offsets k1)
    /\ cached (final (get_groups vals2
                        (fst (perform_all cs (final (get_groups vals1 g))))))
         cached_sorted_keys
       = Some (groups_keys k1)
    /\ cached (final (get_groups vals2
                        (fst (perform_all cs (final (get_groups vals1 g))))))
         cached_group_offsets
       = Some (groups_offsets k1).
Proof.
  destruct (get_groups_returns vals1 g)
    as (k1 & E1 & _ & X1 & _ & K1 & O1 & _).
  set (g1 := final (get_groups vals1 g)) in *.
  pose proof (perform_all_extends cs g1) as X.
  set (g2 := fst (perform_all cs g1)) in *.
  destruct (get_groups_returns vals2 g2)
    as (k2 & E2 & _ & X2 & _ & K2 & O2 & _).
  set (g3 := final (get_groups vals2 g2)) in *.
  assert (KM : forall a b v, extends a b ->
            cached a cached_sorted_keys = Some v ->
            cached b cached_sorted_keys = Some v).
  { intros a b v Xab. apply extends_cached; [|exact Xab].
    intros h h'. apply cached_keys_mono. }
  assert (OM : forall a b v, extends a b ->
            cached a cached_group_offsets = Some v ->
            cached b cached_group_offsets = Some v).
  { intros a b v Xab. apply extends_cached; [|exact Xab].
    intros h h'. apply cached_offsets_mono. }
  pose proof (KM _ _ _ X K1) as K12. pose proof (OM _ _ _ X O1) as O12.
  pose proof (KM _ _ _ X2 K12) as K13. pose proof (OM _ _ _ X2 O12) as O13.
  exists k1, k2. split; [exact E1|]. split; [exact E2|].
  split; [congruence|]. split; [congruence|].
  split.
  { intros NoH. destruct (get_groups_first_use vals1 g NoH)
      as (k & Ek & Ok & Kk).
    assert (k = k1) by congruence. subst k. split; assumption. }
  split.
  { intros t C. pose proof (KM _ _ _ X1 C). congruence. }
  split.
  { intros offs C. pose proof (OM _ _ _ X1 C). congruence. }
  repeat (split; [assumption|]). assumption.
Qed.


(** C10.  On a context whose key table has zero rows, an [aggregate] or
    [scan] call returns or throws before strategy dispatch and leaves the
    object exactly as it was; in particular no helper is constructed, so a
    context without a helper stays without one and a later dispatch on the
    same context still takes the hash path when the hint is NO and the
    requests are hash-compatible. *)
Theorem empty_keys_keep_no_helper g requests :
  num_rows (_keys g) = 0 ->
  final (aggregate requests g) = g
  /\ calls (aggregate requests g) = []
  /\ final (scan requests g) = g
  /\ calls (scan requests g) = []
  /\ (_helper g = None ->
      _helper (final (aggregate requests g)) = None
      /\ _helper (final (scan requests g)) = None
      /\ forall later,
           _keys_are_sorted g = NO ->
           can_use_hash_groupby (_keys g) later = true ->
           calls (dispatch_aggregation later (final (aggregate requests g)))
             = [HashGroupby]
           /\ calls (dispatch_aggregation later (final (scan requests g)))
             = [HashGroupby]).
Proof.
  intros N.
  assert (A : final (aggregate requests g) = g
              /\ calls (aggregate requests g) = []).
  { rewrite aggregate_run, N.
    destruct (first_failure g requests); split; reflexivity. }
  assert (S : final (scan requests g) = g /\ calls (scan requests g) = []).
  { rewrite scan_run, N.
    destruct (first_failure g requests); split; reflexivity. }
  destruct A as (A1 & A2), S as (S1 & S2).
  repeat (split; [assumption|]).
  intros E. rewrite A1, S1. repeat (split; [assumption|]).
  intros later Hint Hash.
  rewrite dispatch_aggregation_run.
  unfold hash_applicable, has_helper. rewrite Hint, E, Hash.
  split; reflexivity.
Qed.

End Properties.

(** * Further properties of the dispatcher *)

Section FurtherProperties.

Context {D : Detail}.

Implicit Types (g : groupby) (requests : list aggregation_request).

(** ** When a call throws *)

Lemma aggregate_throws_iff requests g e :
  outcome (aggregate requests g) = inl e <->
  first_failure g requests = Some e.
Proof.
  rewrite aggregate_run, dispatch_aggregation_run.
  destruct (first_failure g requests) as [e'|]; simpl.
  { split; congruence. }
  destruct (num_rows (_keys g) =? 0); [split; discriminate|].
  destruct (hash_applicable g requests); [split; discriminate|].
  destruct (sort_aggregate_returns requests g) as (a & -> & _).
  split; discriminate.
Qed.

Lemma scan_throws_iff requests g e :
  outcome (scan requests g) = inl e <-> first_failure g requests = Some e.
Proof.
  rewrite scan_run.
  destruct (first_failure g requests) as [e'|]; simpl.
  { split; congruence. }
  destruct (num_rows (_keys g) =? 0); [split; discriminate|].
  destruct (sort_scan_returns requests g) as (a & -> & _).
  split; discriminate.
Qed.

Lemma forallb_false_exists {A : Type} (f : A -> bool) (l : list A) :
  forallb f l = false -> exists x, In x l /\ f x = false.
Proof.
  induction l as [|x l IH]; simpl; [discriminate|].
  destruct (f x) eqn:E; simpl.
  - intros F. destruct (IH F) as (y & I & Fy). exists y. auto.
  - intros _. exists x. auto.
Qed.

Lemma forallb_permutation {A : Type} (f : A -> bool) (l l' : list A) :
  Permutation l l' -> forallb f l = forallb f l'.
Proof.
  induction 1; simpl; try congruence.
  destruct (f x), (f y); reflexivity.
Qed.

Lemma first_failure_permutation g requests requests' :
  Permutation requests requests' ->
  first_failure g requests = first_failure g requests'.
Proof.
  intros P. unfold first_failure, sizes_match, all_valid, dictionary_allowed.
  rewrite !(forallb_permutation _ _ _ P). reflexivity.
Qed.

Lemma passes_validation_cons g r requests :
  passes_validation g (r :: requests) =
  passes_validation g [r] && passes_validation g requests.
Proof.
  unfold passes_validation, sizes_match, all_valid, dictionary_allowed.
  simpl.
  repeat match goal with
         | |- context [forallb ?f ?l] =>
             let b := fresh "b" in set (b := forallb f l); clearbody b
         end.
  destruct (size (values r) =? num_rows (_keys g)), cuda_10_2;
    repeat match goal with b : bool |- _ => destruct b end; reflexivity.
Qed.

Lemma passes_validation_forallb g requests :
  passes_validation g requests =
  forallb (fun r => passes_validation g [r]) requests.
Proof.
  induction requests as [|r rest IH].
  - unfold passes_validation. simpl. destruct cuda_10_2; reflexivity.
  - rewrite passes_validation_cons, IH. reflexivity.
Qed.

Lemma throws_iff_fails_validation g requests :
  (exists e, first_failure g requests = Some e) <->
  passes_validation g requests = false.
Proof.
  split.
  - intros (e & F). destruct (passes_validation g requests) eqn:V;
      [|reflexivity].
    apply first_failure_none in V. congruence.
  - apply first_failure_some.
Qed.

(** ** Invariants along the calls *)

Lemma final_bind_preserves {A B : Type} (P : groupby -> Prop)
  (m : M A) (f : A -> M B) g :
  (P g -> P (final (m g))) ->
  (forall a g', P g' -> P (final (f a g'))) ->
  P g -> P (final (bind m f g)).
Proof.
  intros Hm Hf Pg. unfold bind.
  destruct (outcome (m g)); simpl; auto.
Qed.

Lemma helper_call_consistent {A : Type} (method : H A) g :
  (forall h, cache_le h (snd (method h))) ->
  helper_consistent g -> helper_consistent (final (helper_call method g)).
Proof.
  intros Keep C. unfold helper_call, helper, bind, helper_consistent.
  destruct (_helper g) as [h|] eqn:E; simpl.
  - pose proof (Keep h) as (K & P & S & _).
    destruct (method h) as [a h']; simpl in *.
    intros h0 [= <-]. destruct (C h E) as (K0 & P0 & S0).
    repeat split; congruence.
  - set (h := make_sort_groupby_helper _ _ _).
    pose proof (Keep h) as (K & P & S & _).
    destruct (method h) as [a h']; simpl in *.
    intros h0 [= <-]. repeat split; assumption.
Qed.

Lemma sort_aggregate_consistent requests g :
  helper_consistent g -> helper_consistent (final (sort_aggregate requests g)).
Proof.
  unfold sort_aggregate. apply final_bind_preserves; [auto|].
  intros _ g0. apply final_bind_preserves.
  { apply helper_call_consistent. intros h. apply key_sort_order_fills. }
  intros o g1. apply final_bind_preserves.
  { apply helper_call_consistent. intros h. apply group_offsets_fills. }
  intros offs g2. apply final_bind_preserves.
  { apply helper_call_consistent. intros h. apply sorted_keys_fills. }
  intros t g3 C. exact C.
Qed.

Lemma sort_scan_consistent requests g :
  helper_consistent g -> helper_consistent (final (sort_scan requests g)).
Proof.
  unfold sort_scan. apply final_bind_preserves; [auto|].
  intros _ g0. apply final_bind_preserves.
  { apply helper_call_consistent. intros h. apply key_sort_order_fills. }
  intros o g1. apply final_bind_preserves.
  { apply helper_call_consistent. intros h. apply group_offsets_fills. }
  intros offs g2. apply final_bind_preserves.
  { apply helper_call_consistent. intros h. apply sorted_keys_fills. }
  intros t g3 C. exact C.
Qed.

Lemma get_groups_consistent vals g :
  helper_consistent g -> helper_consistent (final (get_groups vals g)).
Proof.
  unfold get_groups. apply final_bind_preserves.
  { apply helper_call_consistent. intros h. apply sorted_keys_fills. }
  intros t g1. apply final_bind_preserves.
  { apply helper_call_consistent. intros h. apply group_offsets_fills. }
  intros offs g2. destruct (negb (num_columns vals =? 0)).
  - apply final_bind_preserves.
    { apply helper_call_consistent. intros h. apply key_sort_order_fills. }
    intros o g3 C. exact C.
  - intros C. exact C.
Qed.

Lemma perform_consistent c g :
  helper_consistent g -> helper_consistent (fst (perform c g)).
Proof.
  intros C. destruct c as [requests|requests|vals]; cbn [perform fst].
  - rewrite aggregate_run, dispatch_aggregation_run.
    destruct (first_failure g requests); simpl; [exact C|].
    destruct (num_rows (_keys g) =? 0); simpl; [exact C|].
    destruct (hash_applicable g requests); simpl; [exact C|].
    apply sort_aggregate_consistent, C.
  - rewrite scan_run.
    destruct (first_failure g requests); simpl; [exact C|].
    destruct (num_rows (_keys g) =? 0); simpl; [exact C|].
    apply sort_scan_consistent, C.
  - apply get_groups_consistent, C.
Qed.

Lemma hash_applicable_sorted g requests :
  _keys_are_sorted g = YES -> hash_applicable g requests = false.
Proof. intros E. unfold hash_applicable. rewrite E. reflexivity. Qed.

Lemma perform_sorted_no_hash c g :
  _keys_are_sorted g = YES -> ~ In HashGroupby (snd (perform c g)).
Proof.
  intros E. destruct c; cbn [perform snd].
  - rewrite aggregate_calls, (hash_applicable_sorted _ _ E).
    destruct (_ && _); simpl; intuition discriminate.
  - rewrite scan_calls. destruct (_ && _); simpl; intuition discriminate.
  - destruct (get_groups_returns vals g) as (k & _ & -> & _). simpl. tauto.
Qed.

Lemma perform_all_consistent cs : forall g,
  helper_consistent g -> helper_consistent (fst (perform_all cs g)).
Proof.
  induction cs as [|c cs IH]; intros g C; simpl; [exact C|].
  pose proof (perform_consistent c g C) as C1.
  destruct (perform c g) as [g1 s1]; simpl in C1.
  specialize (IH g1 C1). destruct (perform_all cs g1) as [g2 s2].
  exact IH.
Qed.

Lemma get_groups_keys_offsets vals g :
  exists k,
    outcome (get_groups vals g) = inr k
    /\ outcome (helper_call sorted_keys g) = inr (groups_keys k)
    /\ outcome (helper_call group_offsets
                  (final (helper_call sorted_keys g)))
       = inr (groups_offsets k).
Proof.
  destruct (returns_helper_call sorted_keys cached_sorted_keys g
              sorted_keys_fills) as (t & Et & _).
  set (g1 := final (helper_call sorted_keys g)) in *.
  destruct (returns_helper_call group_offsets cached_group_offsets g1
              group_offsets_fills) as (offs & Eo & _).
  set (g2 := final (helper_call group_offsets g1)) in *.
  destruct (returns_helper_call key_sort_order cached_key_sort_order g2
              key_sort_order_fills) as (o & Ek & _).
  unfold get_groups.
  unfold bind at 1. rewrite Et. cbv beta iota zeta.
  unfold bind at 1. fold g1. rewrite Eo. cbv beta iota zeta.
  fold g2. destruct (negb (num_columns vals =? 0)).
  - unfold bind. rewrite Ek. simpl. eexists. repeat split; eassumption.
  - simpl. eexists. repeat split; eassumption.
Qed.

(** * Further properties, entry by entry *)

(** X1.  In a build with nvcc 10.2, requests that pass the size check and
    the type/aggregation check are still refused when a dictionary-encoded
    value column is asked for SUM, MEAN, STD or VARIANCE: [aggregate] and
    [scan] throw the dictionary error, with the object untouched and no
    strategy entered. *)
Theorem dictionary_refused_by_nvcc102 g requests r a :
  cuda_10_2 = true ->
  sizes_match g requests = true ->
  all_valid requests = true ->
  In r requests ->
  In a (aggregations r) ->
  is_dictionary (type (values r)) = true ->
  kind a = SUM \/ kind a = MEAN \/ kind a = STD \/ kind a = VARIANCE ->
  aggregate requests g = Run (inl DictionaryNotSupported) g []
  /\ scan requests g = Run (inl DictionaryNotSupported) g [].
Proof.
  intros C S V Ir Ia Dt K.
  assert (DA : dictionary_allowed requests = false).
  { destruct (dictionary_allowed requests) eqn:E; [|reflexivity].
    unfold dictionary_allowed in E. rewrite forallb_forall in E.
    specialize (E r Ir). rewrite forallb_forall in E.
    specialize (E a Ia). rewrite Dt in E.
    destruct K as [K | [K | [K | K]]]; rewrite K in E; discriminate. }
  rewrite aggregate_run, scan_run. unfold first_failure.
  rewrite S, V, C, DA. split; reflexivity.
Qed.

(** X2.  The dictionary error is raised only by a build with nvcc 10.2, only
    after the size check and the type/aggregation check have passed, and
    only when some dictionary-encoded value column is asked for SUM, MEAN,
    STD or VARIANCE. *)
Theorem dictionary_error_only_nvcc102 g requests :
  outcome (aggregate requests g) = inl DictionaryNotSupported
  \/ outcome (scan requests g) = inl DictionaryNotSupported ->
  cuda_10_2 = true
  /\ sizes_match g requests = true
  /\ all_valid requests = true
  /\ exists r a,
       In r requests /\ In a (aggregations r)
       /\ is_dictionary (type (values r)) = true
       /\ (kind a = SUM \/ kind a = MEAN \/ kind a = STD
           \/ kind a = VARIANCE).
Proof.
  intros T.
  assert (F : first_failure g requests = Some DictionaryNotSupported).
  { destruct T as [T | T];
      [apply aggregate_throws_iff | apply scan_throws_iff]; exact T. }
  unfold first_failure in F.
  destruct (sizes_match g requests); simpl in F; [|discriminate].
  destruct (all_valid requests); simpl in F; [|discriminate].
  destruct cuda_10_2; simpl in F; [|discriminate].
  destruct (dictionary_allowed requests) eqn:DA; simpl in F; [discriminate|].
  repeat split.
  unfold dictionary_allowed in DA.
  apply forallb_false_exists in DA. destruct DA as (r & Ir & Fr).
  apply forallb_false_exists in Fr. destruct Fr as (a & Ia & Fa).
  exists r, a. split; [exact Ir|]. split; [exact Ia|].
  destruct (is_dictionary (type (values r))); simpl in Fa; [|discriminate].
  split; [reflexivity|].
  destruct (kind a); simpl in Fa; try discriminate; tauto.
Qed.

(** X3.  Whether a call throws, and which error, does not depend on the
    order of the requests: the checks go over the whole list one kind of
    check after the other, so a size mismatch anywhere in the list wins over
    an unsupported combination anywhere in the list. *)
Theorem validation_order_independent g requests requests' e :
  Permutation requests requests' ->
  (outcome (aggregate requests g) = inl e <->
   outcome (aggregate requests' g) = inl e)
  /\ (outcome (scan requests g) = inl e <->
      outcome (scan requests' g) = inl e).
Proof.
  intros P. rewrite !aggregate_throws_iff, !scan_throws_iff.
  rewrite (first_failure_permutation g _ _ P). tauto.
Qed.

(** X4.  Validation is request by request: a call with a list of requests
    throws exactly when the call with one of its requests alone would
    throw, for [aggregate] and for [scan]. *)
Theorem validation_request_wise g requests :
  ((exists e, outcome (aggregate requests g) = inl e) <->
   (exists r, In r requests /\ exists e, outcome (aggregate [r] g) = inl e))
  /\ ((exists e, outcome (scan requests g) = inl e) <->
      (exists r, In r requests /\ exists e, outcome (scan [r] g) = inl e)).
Proof.
  assert (W : (exists e, first_failure g requests = Some e) <->
              exists r, In r requests
                        /\ exists e, first_failure g [r] = Some e).
  { rewrite throws_iff_fails_validation, passes_validation_forallb. split.
    - intros F. apply forallb_false_exists in F.
      destruct F as (r & I & F). exists r. split; [exact I|].
      apply throws_iff_fails_validation, F.
    - intros (r & I & F). apply throws_iff_fails_validation in F.
      destruct (forallb _ requests) eqn:A; [|reflexivity].
      rewrite forallb_forall in A. rewrite (A r I) in F. discriminate. }
  split.
  - setoid_rewrite aggregate_throws_iff. exact W.
  - setoid_rewrite scan_throws_iff. exact W.
Qed.

(** X5.  A call without requests passes every check: [aggregate] and [scan]
    on an empty request list never throw, and on a key table without rows
    they return the empty key table and no results. *)
Theorem no_requests_never_throw g :
  (exists v, outcome (aggregate [] g) = inr v)
  /\ (exists v, outcome (scan [] g) = inr v)
  /\ (num_rows (_keys g) = 0 ->
      aggregate [] g = Run (inr (empty_like (_keys g), [])) g []
      /\ scan [] g = Run (inr (empty_like (_keys g), [])) g []).
Proof.
  assert (F : first_failure g [] = None).
  { apply first_failure_none. unfold passes_validation. simpl.
    destruct cuda_10_2; reflexivity. }
  split; [|split].
  - destruct (outcome (aggregate [] g)) as [e|v] eqn:E; [|eauto].
    apply aggregate_throws_iff in E. congruence.
  - destruct (outcome (scan [] g)) as [e|v] eqn:E; [|eauto].
    apply scan_throws_iff in E. congruence.
  - intros N. rewrite aggregate_run, scan_run, F, N. split; reflexivity.
Qed.

(** X6.  The hash path does not touch the object.  On a context with hint
    NO, no helper and at least one key row, every valid hash-compatible
    [aggregate] returns what [detail::hash::groupby] returns for the
    context's keys and null policy, and a whole sequence of such calls uses
    the hash strategy each time and leaves the object as it was. *)
Theorem hash_aggregates_keep_context g rs :
  _keys_are_sorted g = NO ->
  _helper g = None ->
  num_rows (_keys g) <> 0 ->
  Forall (fun requests =>
            passes_validation g requests = true
            /\ can_use_hash_groupby (_keys g) requests = true) rs ->
  perform_all (map call_aggregate rs) g
    = (g, repeat HashGroupby (List.length rs))
  /\ Forall (fun requests =>
               aggregate requests g =
               Run (inr (hash_groupby (_keys g) requests
                           (_include_null_keys g)))
                   g [HashGroupby]) rs.
Proof.
  intros Hint NoH Rows All.
  assert (One : forall requests,
            passes_validation g requests = true ->
            can_use_hash_groupby (_keys g) requests = true ->
            aggregate requests g =
            Run (inr (hash_groupby (_keys g) requests
                        (_include_null_keys g))) g [HashGroupby]).
  { intros requests V C. rewrite aggregate_run, dispatch_aggregation_run.
    apply first_failure_none in V. rewrite V.
    apply Z.eqb_neq in Rows. rewrite Rows.
    unfold hash_applicable, has_helper. rewrite Hint, NoH, C. reflexivity. }
  induction All as [|requests rs (V & C) All IH]; simpl.
  - split; [reflexivity | constructor].
  - destruct IH as (IH1 & IH2). rewrite (One requests V C). simpl.
    rewrite IH1. split; [reflexivity|].
    constructor; [apply One; assumption | exact IH2].
Qed.

(** X7.  On a context whose sortedness hint is YES the hash strategy is
    never used: the hint stays YES through every sequence of calls, and no
    call of the sequence enters the hash strategy, whatever its requests. *)
Theorem sorted_hint_never_hash g cs :
  _keys_are_sorted g = YES ->
  _keys_are_sorted (fst (perform_all cs g)) = YES
  /\ ~ In HashGroupby (snd (perform_all cs g)).
Proof.
  revert g. induction cs as [|c cs IH]; intros g E; simpl; [tauto|].
  pose proof (perform_extends c g) as (_ & _ & S & _).
  pose proof (perform_sorted_no_hash c g E) as N.
  destruct (perform c g) as [g1 s1]; simpl in *.
  rewrite E in S. specialize (IH g1 S).
  destruct (perform_all cs g1) as [g2 s2]; simpl in *.
  rewrite in_app_iff. tauto.
Qed.

(** X8.  From construction on, through every sequence of calls, the object
    keeps the five constructor arguments as they were given, and its
    helper, once there is one, is built from exactly those keys, that null
    policy and that sortedness hint. *)
Theorem helper_built_from_context keys policy hint column_order
  null_precedence cs :
  _keys (fst (perform_all cs (groupby_new keys policy hint column_order
                                null_precedence))) = keys
  /\ _include_null_keys
       (fst (perform_all cs (groupby_new keys policy hint column_order
                               null_precedence))) = policy
  /\ _keys_are_sorted
       (fst (perform_all cs (groupby_new keys policy hint column_order
                               null_precedence))) = hint
  /\ _column_order
       (fst (perform_all cs (groupby_new keys policy hint column_order
                               null_precedence))) = column_order
  /\ _null_precedence
       (fst (perform_all cs (groupby_new keys policy hint column_order
                               null_precedence))) = null_precedence
  /\ forall h,
       _helper (fst (perform_all cs (groupby_new keys policy hint
                                       column_order null_precedence)))
         = Some h ->
       helper_keys h = keys
       /\ helper_include_null_keys h = policy
       /\ helper_keys_pre_sorted h = hint.
Proof.
  set (g0 := groupby_new keys policy hint column_order null_precedence).
  destruct (perform_all_extends cs g0) as (K & P & S & C & N & _).
  assert (I : helper_consistent (fst (perform_all cs g0))).
  { apply perform_all_consistent. intros h E. discriminate. }
  repeat (split; [assumption|]).
  intros h E. destruct (I h E) as (K' & P' & S').
  change (_keys g0) with keys in K.
  change (_include_null_keys g0) with policy in P.
  change (_keys_are_sorted g0) with hint in S.
  repeat split; congruence.
Qed.

(** X9.  [helper] builds the helper at most once and hands out the one the
    object holds: after a call the object holds the helper that was returned;
    a helper the object already held is returned as it is, with the object
    unchanged; only an object without a helper gets one, built from the
    object's keys, null policy and sortedness hint.  Hence calling [helper]
    twice is the same as calling it once. *)
Theorem helper_idempotent g :
  bind helper (fun _ => helper) g = helper g
  /\ helper (final (helper g))
     = Run (outcome (helper g)) (final (helper g)) []
  /\ exists h,
       outcome (helper g) = inr h
       /\ calls (helper g) = []
       /\ _helper (final (helper g)) = Some h
       /\ (forall h0, _helper g = Some h0 ->
                      h = h0 /\ final (helper g) = g)
       /\ (_helper g = None ->
           h = make_sort_groupby_helper (_keys g) (_include_null_keys g)
                 (_keys_are_sorted g)
           /\ final (helper g) = set_helper g h).
Proof.
  unfold bind, helper.
  destruct (_helper g) as [h|] eqn:E; simpl; [rewrite E|].
  - split; [reflexivity|]. split; [reflexivity|].
    exists h. repeat split; intros; congruence.
  - split; [reflexivity|]. split; [reflexivity|].
    eexists. repeat split; intros; try reflexivity; discriminate.
Qed.

(** X10.  A strategy is entered only after every check has passed and only
    on a key table with rows, and then exactly one: the hash or the sort
    strategy for [aggregate], the scan strategy for [scan]. *)
Theorem strategy_only_after_validation g requests :
  (calls (aggregate requests g) <> [] ->
   passes_validation g requests = true
   /\ num_rows (_keys g) <> 0
   /\ (calls (aggregate requests g) = [HashGroupby]
       \/ calls (aggregate requests g) = [SortAggregate]))
  /\ (calls (scan requests g) <> [] ->
      passes_validation g requests = true
      /\ num_rows (_keys g) <> 0
      /\ calls (scan requests g) = [SortScan]).
Proof.
  rewrite aggregate_calls, scan_calls.
  destruct (passes_validation g requests); simpl; [|split; congruence].
  destruct (num_rows (_keys g) =? 0) eqn:N; simpl; [split; congruence|].
  apply Z.eqb_neq in N.
  destruct (hash_applicable g requests); repeat split; auto.
Qed.

(** X11.  The values table handed to [get_groups] has no influence on the
    grouping: from the same object, two calls with different values tables
    return the same sorted keys and the same group offsets. *)
Theorem get_groups_ignores_values g vals1 vals2 :
  exists k1 k2,
    outcome (get_groups vals1 g) = inr k1
    /\ outcome (get_groups vals2 g) = inr k2
    /\ groups_keys k1 = groups_keys k2
    /\ groups_offsets k1 = groups_offsets k2.
Proof.
  destruct (get_groups_keys_offsets vals1 g) as (k1 & E1 & K1 & O1).
  destruct (get_groups_keys_offsets vals2 g) as (k2 & E2 & K2 & O2).
  exists k1, k2. repeat split; try assumption; congruence.
Qed.

End FurtherProperties.

(** * Concrete contexts *)

Import Reference.

(** The worked example: grouped by hash, the unique keys come in
    first-encountered order with SUM 9, 1, 9 and MIN 2, 1, 9. *)
Example sample_aggregate_by_hash :
  calls (aggregate sample_requests sample_context) = [HashGroupby]
  /\ outcome (aggregate sample_requests sample_context)
     = inr (mk_table [int32_column [1; 2; 3]; int32_column [1; 2; 4]],
            [mk_result
               [Column (mk_data_type INT64) 3
                  [Some (9 # 1); Some (1 # 1); Some (9 # 1)] [];
                Column (mk_data_type INT32) 3
                  [Some (2 # 1); Some (1 # 1); Some (9 # 1)] []]]).
Proof. split; reflexivity. Qed.

(** The same requests after [get_groups] go through the sort strategy. *)
Example sample_aggregate_by_sort :
  calls (aggregate sample_requests sample_context_grouped) = [SortAggregate]
  /\ outcome (aggregate sample_requests sample_context_grouped)
     = outcome (aggregate sample_requests sample_context).
Proof. split; reflexivity. Qed.

(** [get_groups] on the worked example: three groups, and the values in
    key sort order. *)
Example sample_get_groups :
  outcome (get_groups (mk_table [sample_values]) sample_context)
  = inr (mk_groups
           (mk_table [int32_column [1; 2; 3]; int32_column [1; 2; 4]])
           [0; 3; 4; 5]
           (Some (mk_table [int32_column [3; 4; 2; 1; 9]]))).
Proof. reflexivity. Qed.

(** The quantile interpolation rule on the sorted values 1, 2, 3, 4 at
    fraction one half. *)
Example quantile_interpolation :
  map (fun i => quantile_of (map inject_Z [1; 2; 3; 4]) i (1 # 2))
      [LINEAR; LOWER; HIGHER; MIDPOINT; NEAREST]
  = [Some (5 # 2); Some (2 # 1); Some (3 # 1); Some (5 # 2); Some (2 # 1)].
Proof. reflexivity. Qed.

(** C1 as stated fails on an empty key table: the three hash conditions
    hold, the call passes validation, and yet no strategy is used. *)
Lemma aggregate_empty_keys_not_hash :
  ~ (In HashGroupby (calls (aggregate empty_requests empty_context)) <->
     hash_conditions empty_context empty_requests).
Proof.
  intros [_ Back].
  assert (C : hash_conditions empty_context empty_requests).
  { apply hash_applicable_true. reflexivity. }
  exact (Back C).
Qed.

Lemma aggregate_hash_iff_witness :
  passes_validation sample_context sample_requests = true
  /\ num_rows (_keys sample_context) <> 0
  /\ (In HashGroupby (calls (aggregate sample_requests sample_context)) <->
      hash_conditions sample_context sample_requests).
Proof.
  split; [reflexivity|]. split; [discriminate|].
  apply (aggregate_hash_iff sample_context sample_requests);
    [reflexivity | discriminate].
Defined.

(** C2 as stated fails once the helper exists on an empty key table: a
    valid [aggregate] or [scan] call returns without the sort strategy. *)
Lemma helper_without_sort_strategy :
  has_helper empty_context_grouped = true
  /\ outcome (aggregate empty_requests empty_context_grouped)
     = inr (empty_like empty_keys, empty_results empty_requests)
  /\ ~ In SortAggregate (calls (aggregate empty_requests empty_context_grouped))
  /\ ~ In SortScan (calls (scan empty_requests empty_context_grouped)).
Proof.
  split; [reflexivity|]. split; [reflexivity|].
  split; intros I; exact I.
Qed.

Lemma sort_strategy_lock_witness :
  has_helper sample_context_grouped = true
  /\ ~ In HashGroupby
       (snd (perform_all [call_aggregate sample_requests;
                          call_scan median_requests;
                          call_aggregate [short_mean_request];
                          call_aggregate sample_requests]
               sample_context_grouped)).
Proof.
  split; [reflexivity|].
  apply (proj2 (proj2 (sort_strategy_lock sample_context_grouped _))).
  reflexivity.
Defined.

Lemma size_mismatch_rejected_witness :
  In short_mean_request [short_mean_request]
  /\ size (values short_mean_request) <> num_rows (_keys sample_context)
  /\ aggregate [short_mean_request] sample_context
     = Run (inl SizeMismatch) sample_context []
  /\ scan [short_mean_request] sample_context
     = Run (inl SizeMismatch) sample_context [].
Proof.
  split; [left; reflexivity|]. split; [discriminate|].
  apply (size_mismatch_rejected sample_context [short_mean_request]
           short_mean_request); [left; reflexivity | discriminate].
Defined.

(** C4 as stated fails when a size mismatch is present as well: the pair
    (STRING, MEAN) is unsupported, but the error is the size mismatch. *)
Lemma invalid_combination_after_size_check :
  is_valid_aggregation (values_type short_mean_request) MEAN = false
  /\ outcome (aggregate [short_mean_request] sample_context)
     <> inl InvalidAggregation
  /\ outcome (scan [short_mean_request] sample_context)
     <> inl InvalidAggregation.
Proof.
  split; [reflexivity|]. split; discriminate.
Qed.

Lemma invalid_combination_rejected_witness :
  aggregate [dictionary_mean_request] sample_context
    = Run (inl InvalidAggregation) sample_context []
  /\ scan [dictionary_mean_request] sample_context
    = Run (inl InvalidAggregation) sample_context [].
Proof.
  apply (invalid_combination_rejected sample_context
           [dictionary_mean_request] dictionary_mean_request
           (plain_aggregation MEAN));
    [left; reflexivity | left; reflexivity | reflexivity].
Defined.

Lemma aggregate_empty_input_witness :
  num_rows (_keys empty_context) = 0
  /\ passes_validation empty_context empty_requests = true
  /\ aggregate empty_requests empty_context
     = Run (inr (empty_like empty_keys,
                 [mk_result [make_empty_column (mk_data_type INT64);
                             make_empty_column (mk_data_type INT32)]]))
           empty_context [].
Proof.
  split; [reflexivity|]. split; [reflexivity|].
  exact (proj1 (aggregate_empty_input empty_context empty_requests
                  eq_refl eq_refl)).
Defined.

Lemma scan_uses_sort_witness :
  passes_validation sample_context sample_requests = true
  /\ num_rows (_keys sample_context) <> 0
  /\ calls (scan sample_requests sample_context) = [SortScan].
Proof.
  split; [reflexivity|]. split; [discriminate|].
  apply (proj1 (proj2 (scan_uses_sort sample_context sample_requests)));
    [reflexivity | discriminate].
Defined.

Lemma validation_failure_no_effect_witness :
  passes_validation sample_context [dictionary_mean_request] = false
  /\ exists e,
       aggregate [dictionary_mean_request] sample_context
         = Run (inl e) sample_context []
       /\ scan [dictionary_mean_request] sample_context
         = Run (inl e) sample_context [].
Proof.
  split; [reflexivity|].
  apply (validation_failure_no_effect sample_context
           [dictionary_mean_request]). reflexivity.
Defined.

Lemma empty_keys_keep_no_helper_witness :
  num_rows (_keys empty_context) = 0
  /\ final (aggregate empty_requests empty_context) = empty_context
  /\ final (scan empty_requests empty_context) = empty_context.
Proof.
  split; [reflexivity|].
  pose proof (empty_keys_keep_no_helper empty_context empty_requests
                eq_refl) as (A & _ & S & _).
  split; assumption.
Defined.

(** ** The further properties on concrete contexts *)

(** The same dictionary request passes validation in a build without the
    second check. *)
Example dictionary_sum_accepted_elsewhere :
  passes_validation sample_context [Nvcc102.dictionary_sum_request] = true
  /\ calls (aggregate [Nvcc102.dictionary_sum_request] sample_context)
     = [HashGroupby].
Proof. split; reflexivity. Qed.

Lemma dictionary_refused_by_nvcc102_witness :
  @sizes_match sample_context [Nvcc102.dictionary_sum_request] = true
  /\ @all_valid Nvcc102.detail [Nvcc102.dictionary_sum_request] = true
  /\ @aggregate Nvcc102.detail [Nvcc102.dictionary_sum_request]
       sample_context
     = Run (inl DictionaryNotSupported) sample_context []
  /\ @scan Nvcc102.detail [Nvcc102.dictionary_sum_request] sample_context
     = Run (inl DictionaryNotSupported) sample_context [].
Proof.
  split; [reflexivity|]. split; [reflexivity|].
  apply (@dictionary_refused_by_nvcc102 Nvcc102.detail sample_context
           [Nvcc102.dictionary_sum_request] Nvcc102.dictionary_sum_request
           (plain_aggregation SUM));
    [ reflexivity | reflexivity | reflexivity | left; reflexivity
    | left; reflexivity | reflexivity | left; reflexivity ].
Defined.

Lemma dictionary_error_only_nvcc102_witness :
  outcome (@aggregate Nvcc102.detail [Nvcc102.dictionary_sum_request]
             sample_context) = inl DictionaryNotSupported
  /\ exists r a,
       In r [Nvcc102.dictionary_sum_request] /\ In a (aggregations r)
       /\ is_dictionary (type (values r)) = true
       /\ (kind a = SUM \/ kind a = MEAN \/ kind a = STD
           \/ kind a = VARIANCE).
Proof.
  split; [reflexivity|].
  apply (@dictionary_error_only_nvcc102 Nvcc102.detail sample_context
           [Nvcc102.dictionary_sum_request]).
  left. reflexivity.
Defined.

Lemma validation_order_independent_witness :
  Permutation [dictionary_mean_request; short_mean_request]
              [short_mean_request; dictionary_mean_request]
  /\ (outcome (aggregate [dictionary_mean_request; short_mean_request]
                 sample_context) = inl SizeMismatch <->
      outcome (aggregate [short_mean_request; dictionary_mean_request]
                 sample_context) = inl SizeMismatch).
Proof.
  split; [apply perm_swap|].
  apply (validation_order_independent sample_context
           [dictionary_mean_request; short_mean_request]
           [short_mean_request; dictionary_mean_request] SizeMismatch).
  apply perm_swap.
Defined.

Lemma no_requests_never_throw_witness :
  num_rows (_keys empty_context) = 0
  /\ aggregate [] empty_context
     = Run (inr (empty_like empty_keys, [])) empty_context []
  /\ scan [] empty_context
     = Run (inr (empty_like empty_keys, [])) empty_context [].
Proof.
  split; [reflexivity|].
  apply (proj2 (proj2 (no_requests_never_throw empty_context))).
  reflexivity.
Defined.

Lemma hash_aggregates_keep_context_witness :
  _keys_are_sorted sample_context = NO
  /\ _helper sample_context = None
  /\ num_rows (_keys sample_context) <> 0
  /\ perform_all (map call_aggregate [sample_requests; sample_requests])
       sample_context
     = (sample_context, [HashGroupby; HashGroupby]).
Proof.
  split; [reflexivity|]. split; [reflexivity|]. split; [discriminate|].
  apply (hash_aggregates_keep_context sample_context
           [sample_requests; sample_requests]);
    [ reflexivity | reflexivity | discriminate
    | repeat constructor ].
Defined.

Lemma sorted_hint_never_hash_witness :
  _keys_are_sorted presorted_context = YES
  /\ ~ In HashGroupby
       (snd (perform_all [call_aggregate presorted_requests;
                          call_get_groups (mk_table []);
                          call_aggregate presorted_requests]
               presorted_context)).
Proof.
  split; [reflexivity|].
  apply (sorted_hint_never_hash presorted_context). reflexivity.
Defined.

Lemma helper_built_from_context_witness :
  exists h,
    _helper (fst (perform_all [call_scan sample_requests]
                    (groupby_new sample_keys EXCLUDE NO [] [])))
      = Some h
    /\ helper_keys h = sample_keys
    /\ helper_include_null_keys h = EXCLUDE
    /\ helper_keys_pre_sorted h = NO.
Proof.
  eexists. split; [reflexivity|].
  apply (helper_built_from_context sample_keys EXCLUDE NO [] []
           [call_scan sample_requests]).
  reflexivity.
Defined.

Lemma strategy_only_after_validation_witness :
  calls (aggregate sample_requests sample_context) <> []
  /\ passes_validation sample_context sample_requests = true
  /\ num_rows (_keys sample_context) <> 0.
Proof.
  split; [discriminate|].
  pose proof (proj1 (strategy_only_after_validation sample_context
                       sample_requests)) as W.
  destruct W as (V & N & _); [discriminate|].
  split; assumption.
Defined.

Lemma get_groups_idempotent_witness :
  _helper sample_context = None
  /\ exists k1,
       outcome (get_groups (mk_table [sample_values]) sample_context)
         = inr k1
       /\ groups_offsets k1
          = compute_group_offsets sample_keys EXCLUDE
              (compute_key_sort_order sample_keys EXCLUDE NO)
       /\ cached (fst (perform_all [call_aggregate sample_requests;
                                    call_scan median_requests]
                         (final (get_groups (mk_table [sample_values])
                                   sample_context))))
            cached_group_offsets
          = Some (groups_offsets k1).
Proof.
  split; [reflexivity|].
  destruct (get_groups_idempotent sample_context (mk_table [sample_values])
              [call_aggregate sample_requests; call_scan median_requests]
              (mk_table []))
    as (k1 & k2 & E1 & _ & _ & _ & First & _ & _ & _ & _ & _ & Kept & _).
  exists k1. split; [exact E1|].
  split; [exact (proj1 (First eq_refl)) | exact Kept].
Defined.

Lemma helper_idempotent_witness :
  exists h,
    _helper sample_context_grouped = Some h
    /\ outcome (helper sample_context_grouped) = inr h
    /\ final (helper sample_context_grouped) = sample_context_grouped.
Proof.
  destruct (helper_idempotent sample_context_grouped)
    as (_ & _ & h & E & _ & _ & Kept & _).
  eexists. split; [reflexivity|].
  destruct (Kept _ eq_refl) as (<- & F).
  split; [exact E | exact F].
Defined.
